(** * oect_transfer: figures of merit of a transistor transfer curve

    A shallow embedding of [src/oect_transfer/transfer.py] and the
    properties its specification states about it.

    - Python exceptions are an explicit [result] type, threaded with a
      small error monad.
    - [numpy.float64] is IEEE 754 binary64.  It is modelled by the
      Standard Library's [spec_float] with [prec = 53], [emax = 1024]:
      signed zeros, infinities, one NaN, round to nearest even.
    - The arithmetic of [safe_diff] is written once over a [Scalar]
      interface, which is instantiated with binary64, the arithmetic the
      program runs.
    - One-dimensional arrays are lists, updated by index as the loop of
      [safe_diff] does. *)

From Stdlib Require Import ZArith Bool Ascii String Lia.
From Stdlib Require Import SpecFloat.
From stdpp Require Import base list.

Set Default Proof Using "Type".

(** ** Python exceptions *)

Inductive exn :=
| ValueError (msg : string)
| IndexError (msg : string).

Inductive result (A : Type) :=
| Ok (a : A)
| Raise (e : exn).
Arguments Ok {A} a.
Arguments Raise {A} e.

Definition bind {A B} (m : result A) (k : A -> result B) : result B :=
  match m with
  | Ok a => k a
  | Raise e => Raise e
  end.

Notation "'let*' x ':=' m 'in' k" := (bind m (fun x => k))
  (at level 10, x name, m at level 100, k at level 200).

(** ** Indexing a one-dimensional array

    [l[i]] with a Python integer: a negative index counts from the end,
    an index outside the array raises IndexError. *)

Definition getitem {A} (l : list A) (i : Z) : result A :=
  let n := Z.of_nat (length l) in
  let j := if (i <? 0)%Z then (i + n)%Z else i in
  if ((j <? 0) || (n <=? j))%Z then Raise (IndexError "index out of bounds")
  else match l !! Z.to_nat j with
       | Some v => Ok v
       | None => Raise (IndexError "index out of bounds")
       end.

(** [l[i] = v], an in-place store; [i] is a loop counter, never negative. *)
Definition setitem {A} (l : list A) (i : nat) (v : A) : result (list A) :=
  if (i <? length l)%nat then Ok (<[i:=v]> l)
  else Raise (IndexError "index out of bounds").

(** ** Scalars

    What [safe_diff] needs of its element type. *)

Class Scalar (F : Type) := {
  zero : F;                      (* the fill value of np.zeros_like *)
  two : F;                       (* the literal 2 *)
  eps : F;                       (* the literal 1e-12 *)
  add : F -> F -> F;
  sub : F -> F -> F;
  div : F -> F -> F;
  absf : F -> F;
  gtb : F -> F -> bool           (* a > b *)
}.

(** ** [Transfer.safe_diff] *)

Section SafeDiff.
Context {F : Type} `{Scalar F}.

(** [dx if abs(dx) > 1e-12 else 1e-12] *)
Definition clamp (dx : F) : F :=
    if gtb (absf dx) eps then dx else eps.

(** [np.zeros_like(f)] *)
Definition zeros_like (f : list F) : list F := replicate (length f) zero.

(** The value stored at [df[i]] by one turn of the loop. *)
Definition safe_diff_body (f x : list F) (n i : nat) : result F :=
  if (i =? 0)%nat then
    let* x1 := getitem x 1 in
    let* x0 := getitem x 0 in
    let dx := clamp (sub x1 x0) in
    let* f1 := getitem f 1 in
    let* f0 := getitem f 0 in
    Ok (div (sub f1 f0) dx)
  else if (i =? n - 1)%nat then
    let* xl := getitem x (-1) in
    let* xp := getitem x (-2) in
    let dx := clamp (sub xl xp) in
    let* fl := getitem f (-1) in
    let* fp := getitem f (-2) in
    Ok (div (sub fl fp) dx)
  else
    let* xi := getitem x (Z.of_nat i) in
    let* xa := getitem x (Z.of_nat i - 1) in
    let dx1 := sub xi xa in
    let* xb := getitem x (Z.of_nat i + 1) in
    let* xi' := getitem x (Z.of_nat i) in
    let dx2 := sub xb xi' in
    let dx1 := clamp dx1 in
    let dx2 := clamp dx2 in
    let* fi := getitem f (Z.of_nat i) in
    let* fa := getitem f (Z.of_nat i - 1) in
    let df1 := div (sub fi fa) dx1 in
    let* fb := getitem f (Z.of_nat i + 1) in
    let* fi' := getitem f (Z.of_nat i) in
    let df2 := div (sub fb fi') dx2 in
    Ok (div (add df1 df2) two).

(** [for i in range(n): df[i] = ...] *)
Fixpoint safe_diff_loop (f x : list F) (n : nat) (range : list nat)
    (df : list F) : result (list F) :=
  match range with
  | [] => Ok df
  | i :: range' =>
      let* v := safe_diff_body f x n i in
      let* df' := setitem df i v in
      safe_diff_loop f x n range' df'
  end.

Definition safe_diff (f x : list F) : result (list F) :=
  let n := length f in
  if (n <? 2)%nat then Ok (zeros_like f)
  else
    let df := zeros_like f in
    safe_diff_loop f x n (seq 0 n) df.

(** The element at an index, for stating formulas ([zero] outside the
    array, where no formula below reads). *)
Definition item (l : list F) (i : nat) : F := nth i l zero.

(** The formulas of the specification (its section 4.1), to compare the
    loop with: the one-sided differences, each over its stabilised
    denominator, and their arrangement by index. *)
Definition forward_diff (f x : list F) (i : nat) : F :=
  div (sub (item f (i + 1)) (item f i))
      (clamp (sub (item x (i + 1)) (item x i))).

Definition backward_diff (f x : list F) (i : nat) : F :=
  div (sub (item f i) (item f (i - 1)))
      (clamp (sub (item x i) (item x (i - 1)))).

(** The value of the derivative at index [i] of [n] samples. *)
Definition stencil (f x : list F) (n i : nat) : F :=
  if (i =? 0)%nat then forward_diff f x 0
  else if (i =? n - 1)%nat then backward_diff f x (n - 1)
  else div (add (backward_diff f x i) (forward_diff f x i)) two.

End SafeDiff.

(** ** binary64

    [numpy.float64] values are the [spec_float]s that satisfy
    [valid_binary prec emax]; the operations are those of IEEE 754 with
    rounding to nearest, ties to even. *)

Module F64.
Definition prec : Z := 53.
Definition emax : Z := 1024.

Definition float : Type := spec_float.

Definition valid (v : float) : bool := valid_binary prec emax v.

(** The binary64 value of an integer literal. *)
Definition of_Z (z : Z) : float := binary_normalize prec emax z 0 false.

(** The literal [1e-12]: the binary64 value nearest to 10^-12,
      [0x1.19799812dea11p-40]. *)
Definition eps64 : float := S754_finite false 4951760157141521 (-92).

Definition is_nan (v : float) : bool :=
    match v with S754_nan => true | _ => false end.

Definition is_inf (v : float) : bool :=
    match v with S754_infinity _ => true | _ => false end.

Definition is_zero (v : float) : bool :=
    match v with S754_zero _ => true | _ => false end.

(** Neither NaN nor infinite: [np.isfinite]. *)
Definition is_finite (v : float) : bool := negb (is_nan v) && negb (is_inf v).

(** The position of a value in the order of the comparisons, as a triple
    compared lexicographically: the class (negative infinity, negative,
    zero, positive, positive infinity), then exponent and mantissa.  Both
    zeros share a position; NaN has none and is given that of zero. *)
Definition key (a : float) : Z * Z * Z :=
  match a with
  | S754_nan => (0, 0, 0)
  | S754_zero _ => (0, 0, 0)
  | S754_infinity true => (-2, 0, 0)
  | S754_infinity false => (2, 0, 0)
  | S754_finite false m e => (1, e, Z.pos m)
  | S754_finite true m e => (-1, - e, - Z.pos m)
  end%Z.

Definition lex_lt (p q : Z * Z * Z) : Prop :=
  (p.1.1 < q.1.1 \/
   (p.1.1 = q.1.1 /\ (p.1.2 < q.1.2 \/ (p.1.2 = q.1.2 /\ p.2 < q.2))))%Z.

Definition ltb (a b : float) : bool := SFltb a b.
Definition leb (a b : float) : bool := SFleb a b.
Definition eqb (a b : float) : bool := SFeqb a b.

#[global] Instance scalar64 : Scalar float := {|
    zero := S754_zero false;
    two := of_Z 2;
    eps := eps64;
    add := SFadd prec emax;
    sub := SFsub prec emax;
    div := SFdiv prec emax;
    absf := SFabs;
    gtb := fun a b => ltb b a
  |}.
(** The spacing [0 - 1e-12], that is [-1e-12]. *)
Definition minus_eps : float := SFsub prec emax (S754_zero false) eps64.

(** [m*x + c] on every sample, as numpy evaluates it. *)
Definition linear64 (m c : float) (x : list float) : list float :=
  map (fun xi => SFadd prec emax (SFmul prec emax m xi) c) x.

(** [v] is a positive binary64 value below 1 and the rational [num/den]
    lies within half a unit in the last place of it: the literal
    [num/den] reads as [v]. *)
Definition reads_as (num den : Z) (v : float) : bool :=
  match v with
  | S754_finite false m e =>
      valid v && (e <? 0)%Z &&
      (2 * Z.abs (Z.pos m * den - num * 2 ^ (- e)) <=? den)%Z
  | _ => false
  end.
(** A mantissa under shift from which no bit has been lost. *)
Definition exact_rec (m : Z) : shr_record :=
  {| shr_m := m; shr_r := false; shr_s := false |}.

(** [q] shifted left by [n] bits ([q] itself when [n] is not positive). *)
Definition pshl (q : positive) (n : Z) : positive :=
  match n with Z.pos k => Pos.iter xO q k | _ => q end.

(** The normalised binary64 form of [(-1)^s * z * 2^E], for [z] of at most
    53 bits: the mantissa is [z] shifted up to 53 bits. *)
Definition canon (s : bool) (z : positive) (E : Z) : float :=
  S754_finite s (pshl z (53 - Z.pos (digits2_pos z)))
              (E + Z.pos (digits2_pos z) - 53)%Z.
End F64.

(** ** The numpy operations the program calls

    One-dimensional [float64] arrays are lists of binary64 values.  The
    reductions follow numpy's element loops: a NaN is maximal (and minimal)
    and wins at its first occurrence; among equal values the first one
    wins. *)

Module Np.
Import F64.

(** An array as [np.asarray(_, dtype=np.float64)] returns it: its shape
    and its elements in row-major order. *)
Record ndarray := { shape : list nat; data : list float }.

Definition ndim (a : ndarray) : nat := length (shape a).

(** [a.size]: the product of the dimensions. *)
Definition size (a : ndarray) : nat := foldr Nat.mul 1%nat (shape a).

(** [a.shape[0]] *)
Definition shape0 (a : ndarray) : nat := hd 0%nat (shape a).

(** The buffer holds [size] elements. *)
Definition wf (a : ndarray) : bool := (length (data a) =? size a)%nat.

(** A one-dimensional array of the given elements. *)
Definition array1 (l : list float) : ndarray :=
  {| shape := [length l]; data := l |}.

(** [np.any(np.isnan(a))], [np.any(np.isinf(a))] *)
Definition any_isnan (a : ndarray) : bool := existsb is_nan (data a).
Definition any_isinf (a : ndarray) : bool := existsb is_inf (data a).

(** The scan of [argmax] after the first element: [mp] is the running
    maximum, [max_ind] its index, [i] the index of the head of [ip].
    The test is [!(ip[i] <= mp)], so a NaN replaces the maximum and ends
    the scan. *)
Fixpoint argmax_scan (mp : float) (max_ind i : nat) (ip : list float) : nat :=
  match ip with
  | [] => max_ind
  | v :: ip' =>
      if negb (leb v mp) then
        if is_nan v then i else argmax_scan v i (S i) ip'
      else argmax_scan mp max_ind (S i) ip'
  end.

(** [a.argmax()] *)
Definition argmax (a : list float) : result nat :=
  match a with
  | [] => Raise (ValueError "attempt to get argmax of an empty sequence")
  | mp :: ip => if is_nan mp then Ok 0%nat else Ok (argmax_scan mp 0 1 ip)
  end.

(** The scan of [argmin]; the test is [!(ip[i] >= mp)]. *)
Fixpoint argmin_scan (mp : float) (min_ind i : nat) (ip : list float) : nat :=
  match ip with
  | [] => min_ind
  | v :: ip' =>
      if negb (leb mp v) then
        if is_nan v then i else argmin_scan v i (S i) ip'
      else argmin_scan mp min_ind (S i) ip'
  end.

(** [a.argmin()] *)
Definition argmin (a : list float) : result nat :=
  match a with
  | [] => Raise (ValueError "attempt to get argmin of an empty sequence")
  | mp :: ip => if is_nan mp then Ok 0%nat else Ok (argmin_scan mp 0 1 ip)
  end.

(** [np.maximum(a, b)]: [a] when [a >= b] or [a] is NaN, else [b], as in
    numpy's scalar loop.  Of two operands that compare equal the scalar
    loop keeps the first; a vectorised build of numpy may keep the other
    one.  Equal operands differ only when they are zeros of opposite sign,
    so this choice shows in nothing but the sign of a zero result. *)
Definition maximum (a b : float) : float :=
  if leb b a || is_nan a then a else b.

(** [np.minimum(a, b)]: [a] when [a <= b] or [a] is NaN, else [b]; the
    same remark applies. *)
Definition minimum (a b : float) : float :=
  if leb a b || is_nan a then a else b.

(** [a.max()], [a.min()]: the reduction of [maximum], [minimum] from the
    left.  The order of the reduction, like the choice between equal
    operands, can only change which zero is returned when the extremum is
    a zero and the array holds zeros of both signs. *)
Definition amax (a : list float) : result float :=
  match a with
  | [] => Raise (ValueError "zero-size array to reduction operation maximum which has no identity")
  | v :: a' => Ok (foldl maximum v a')
  end.

Definition amin (a : list float) : result float :=
  match a with
  | [] => Raise (ValueError "zero-size array to reduction operation minimum which has no identity")
  | v :: a' => Ok (foldl minimum v a')
  end.

(** [k] is the lowest index at which [a] attains its maximum. *)
Definition is_argmax (a : list float) (k : nat) : Prop :=
  exists m, a !! k = Some m /\
    (forall j v, a !! j = Some v -> leb v m = true) /\
    (forall j v, (j < k)%nat -> a !! j = Some v -> ltb v m = true).

(** [k] is the lowest index at which [a] attains its minimum. *)
Definition is_argmin (a : list float) (k : nat) : Prop :=
  exists m, a !! k = Some m /\
    (forall j v, a !! j = Some v -> leb m v = true) /\
    (forall j v, (j < k)%nat -> a !! j = Some v -> ltb m v = true).

(** [m] is an element of [a] that no element exceeds; that none is
    below. *)
Definition is_max (a : list float) (m : float) : Prop :=
  m ∈ a /\ forall v, v ∈ a -> leb v m = true.

Definition is_min (a : list float) (m : float) : Prop :=
  m ∈ a /\ forall v, v ∈ a -> leb m v = true.

(** [abs(a)] on an array *)
Definition absolute (a : list float) : list float := map SFabs a.

(** [np.clip(a, a_min, None)] is [np.maximum(a, a_min)] element by
    element. *)
Definition clip_min (a : list float) (a_min : float) : list float :=
  map (fun v => maximum v a_min) a.

End Np.

(** ** [str.upper] on the ASCII letters *)

Definition upper_ascii (c : ascii) : ascii :=
  let n := nat_of_ascii c in
  if ((97 <=? n) && (n <=? 122))%nat then ascii_of_nat (n - 32) else c.

Fixpoint upper (s : string) : string :=
  match s with
  | EmptyString => EmptyString
  | String c s' => String (upper_ascii c) (upper s')
  end.

(** ** The records of the program *)

Module Sequence.
Record t := { raw : list F64.float; forward : list F64.float; reverse : list F64.float }.
End Sequence.

(** [forward] and [reverse] of a [Point] hold a float or, in
    [_compute_Von], possibly [None]. *)
Module Point.
Record t := {
  raw : F64.float;
  where_ : string;
  forward : option F64.float;
  reverse : option F64.float
}.
End Point.

(** ** [class Transfer] *)

Module Transfer.
Import F64 Np.

Record t := {
  Vg : Sequence.t;
  I : Sequence.t;
  gm : Sequence.t;
  gm_max : Point.t;
  I_max : Point.t;
  I_min : Point.t;
  Von : Point.t
}.

(** The checks at the head of [__init__], in the order of the source.
    (The two diagnostic [print]s before the length error write to the
    standard output only and are left out.) *)
Definition validate (x y : ndarray) : result unit :=
  if negb (ndim x =? 1)%nat || negb (ndim y =? 1)%nat then
    Raise (ValueError "x and y must be 1D arrays.")
  else if negb (shape0 x =? shape0 y)%nat then
    Raise (ValueError "x and y must have the same length.")
  else if (size x =? 0)%nat || (size y =? 0)%nat then
    Raise (ValueError "x and y must not be empty.")
  else if any_isnan x || any_isnan y then
    Raise (ValueError "x and y must not contain NaN values.")
  else if any_isinf x || any_isinf y then
    Raise (ValueError "x and y must not contain infinite values.")
  else Ok tt.

(** The three-way [if / elif / else] each [_compute_*] method repeats. *)
Definition locate (idx index : nat) : string :=
  if (idx <? index)%nat then "forward"
  else if (idx =? index)%nat then "turning_point"
  else "reverse".

Definition _compute_gm (Vg I : Sequence.t) : result Sequence.t :=
  let* r := safe_diff (Sequence.raw I) (Sequence.raw Vg) in
  let* f := safe_diff (Sequence.forward I) (Sequence.forward Vg) in
  let* b := safe_diff (Sequence.reverse I) (Sequence.reverse Vg) in
  Ok {| Sequence.raw := r; Sequence.forward := f; Sequence.reverse := b |}.

Definition _compute_gm_max (Vg gm : Sequence.t) : result Point.t :=
  let* gm_max_index := argmax (Sequence.raw gm) in
  let* index := argmax (Sequence.raw Vg) in
  let gm_max_where := locate gm_max_index index in
  let* r := amax (Sequence.raw gm) in
  let* f := amax (Sequence.forward gm) in
  let* b := amax (Sequence.reverse gm) in
  Ok {| Point.raw := r; Point.where_ := gm_max_where;
        Point.forward := Some f; Point.reverse := Some b |}.

Definition _compute_I_max (Vg I : Sequence.t) : result Point.t :=
  let* I_max_index := argmax (absolute (Sequence.raw I)) in
  let* index := argmax (Sequence.raw Vg) in
  let I_max_where := locate I_max_index index in
  let* r := amax (absolute (Sequence.raw I)) in
  let* f := amax (absolute (Sequence.forward I)) in
  let* b := amax (absolute (Sequence.reverse I)) in
  Ok {| Point.raw := r; Point.where_ := I_max_where;
        Point.forward := Some f; Point.reverse := Some b |}.

Definition _compute_I_min (Vg I : Sequence.t) : result Point.t :=
  let* I_min_index := argmin (absolute (Sequence.raw I)) in
  let* index := argmax (Sequence.raw Vg) in
  let I_min_where := locate I_min_index index in
  let* r := amin (absolute (Sequence.raw I)) in
  let* f := amin (absolute (Sequence.forward I)) in
  let* b := amin (absolute (Sequence.reverse I)) in
  Ok {| Point.raw := r; Point.where_ := I_min_where;
        Point.forward := Some f; Point.reverse := Some b |}.

(** The two legs cut at index [k]. *)
Definition legs (k : nat) (raw : list float) : Sequence.t :=
  {| Sequence.raw := raw;
     Sequence.forward := take (k + 1) raw;
     Sequence.reverse := drop k raw |}.

(** The specification's names for the error conditions of construction.
    The program raises [ValueError] for each and tells them apart by the
    message; [condition_of] reads the condition off the message. *)
Inductive condition :=
| ShapeError
| EmptyInputError
| NaNValueError
| InfiniteValueError.

Definition condition_of (e : exn) : option condition :=
  match e with
  | ValueError msg =>
      if String.eqb msg "x and y must be 1D arrays." then Some ShapeError
      else if String.eqb msg "x and y must have the same length." then Some ShapeError
      else if String.eqb msg "x and y must not be empty." then Some EmptyInputError
      else if String.eqb msg "x and y must not contain NaN values." then Some NaNValueError
      else if String.eqb msg "x and y must not contain infinite values." then Some InfiniteValueError
      else None
  | IndexError _ => None
  end.

(** The invariant the specification states of a sweep split at the
    turning index [k]: [forward] is [raw[0..k]], [reverse] is
    [raw[k..end]], index [k] is the one raw index that lies in both, and
    the lengths add up to one more than that of [raw]. *)
Definition sweep_invariant (k : nat) (s : Sequence.t) : Prop :=
  (k < length (Sequence.raw s))%nat /\
  length (Sequence.forward s) = (k + 1)%nat /\
  (forall i, (i <= k)%nat -> Sequence.forward s !! i = Sequence.raw s !! i) /\
  length (Sequence.reverse s) = (length (Sequence.raw s) - k)%nat /\
  (forall j, Sequence.reverse s !! j = Sequence.raw s !! (k + j)%nat) /\
  (forall i, (i < length (Sequence.forward s) /\
              k <= i < k + length (Sequence.reverse s))%nat <-> i = k) /\
  (length (Sequence.forward s) + length (Sequence.reverse s)
   = length (Sequence.raw s) + 1)%nat.

Section Von.
(** [np.log10] on one element.  It is the C library's [log10]; the
    program's source does not define it, so it is a parameter here. *)
Variable log10 : float -> float.

(** [np.log10(np.clip(abs(a), 1e-12, None))] *)
Definition log_Id (a : list float) : list float :=
  map log10 (clip_min (absolute a) eps64).

(** [d.argmax()] when [device_type.upper() == "N"], else [d.argmin()]. *)
Definition select (device_type : string) (d : list float) : result nat :=
  if String.eqb (upper device_type) "N" then argmax d else argmin d.

(** What the specification says of Von on one sequence, [v] of [Vg] and
    [i] of [I]: the derivative of the floored log-magnitude against [v]
    exists, an index is selected on it by polarity, and [w] is [v] there.
    Where the slope curve holds no NaN the selected index is the lowest
    index of its maximum (N) or of its minimum (otherwise). *)
Definition Von_of (device_type : string) (v i : list float) (w : float)
  : Prop :=
  exists d idx,
    safe_diff (log_Id i) v = Ok d /\
    select device_type d = Ok idx /\
    v !! idx = Some w /\
    (existsb is_nan d = false ->
     if String.eqb (upper device_type) "N" then is_argmax d idx
     else is_argmin d idx).

Definition _compute_Von (Vg I : Sequence.t) (device_type : string)
  : result Point.t :=
  let log_Id_raw := log_Id (Sequence.raw I) in
  let* dlogId_dVg_raw := safe_diff log_Id_raw (Sequence.raw Vg) in
  let* idx_raw := select device_type dlogId_dVg_raw in
  let* Von_raw := getitem (Sequence.raw Vg) (Z.of_nat idx_raw) in
  let log_Id_forward := log_Id (Sequence.forward I) in
  let* dlogId_dVg_forward := safe_diff log_Id_forward (Sequence.forward Vg) in
  let* idx_forward := select device_type dlogId_dVg_forward in
  let* Von_forward :=
    if (0 <? length (Sequence.forward Vg))%nat then
      let* v := getitem (Sequence.forward Vg) (Z.of_nat idx_forward) in Ok (Some v)
    else Ok None in
  let log_Id_reverse := log_Id (Sequence.reverse I) in
  let* dlogId_dVg_reverse := safe_diff log_Id_reverse (Sequence.reverse Vg) in
  let* idx_reverse := select device_type dlogId_dVg_reverse in
  let* Von_reverse :=
    if (0 <? length (Sequence.reverse Vg))%nat then
      let* v := getitem (Sequence.reverse Vg) (Z.of_nat idx_reverse) in Ok (Some v)
    else Ok None in
  let* index := argmax (Sequence.raw Vg) in
  let Von_where := locate idx_raw index in
  Ok {| Point.raw := Von_raw; Point.where_ := Von_where;
        Point.forward := Von_forward; Point.reverse := Von_reverse |}.

(** [Transfer(x, y, device_type)], for a [device_type] that is a [str] as
    the parameter is annotated; with a value of another type
    [device_type.upper()] fails, which is outside this model. *)
Definition __init__ (x y : ndarray) (device_type : string) : result t :=
  let* _ := validate x y in
  let* max_idx := argmax (data x) in
  let Vg_ := {| Sequence.raw := data x;
                Sequence.forward := take (max_idx + 1) (data x);
                Sequence.reverse := drop max_idx (data x) |} in
  let I_ := {| Sequence.raw := data y;
               Sequence.forward := take (max_idx + 1) (data y);
               Sequence.reverse := drop max_idx (data y) |} in
  let* gm_ := _compute_gm Vg_ I_ in
  let* gm_max_ := _compute_gm_max Vg_ gm_ in
  let* I_max_ := _compute_I_max Vg_ I_ in
  let* I_min_ := _compute_I_min Vg_ I_ in
  let* Von_ := _compute_Von Vg_ I_ device_type in
  Ok {| Vg := Vg_; I := I_; gm := gm_; gm_max := gm_max_;
        I_max := I_max_; I_min := I_min_; Von := Von_ |}.

End Von.
End Transfer.

(** ** The sweep of the program's [__main__] block

    [x = [0, 1, 2, 3, 2, 1, 0]], [y = [0, 1, 4, 6, 8, 23, 6]]; the concrete
    input on which the statements below are instantiated. *)

Module Sample.
Definition x : Np.ndarray := Np.array1 (map F64.of_Z [0; 1; 2; 3; 2; 1; 0]%Z).
Definition y : Np.ndarray := Np.array1 (map F64.of_Z [0; 1; 4; 6; 8; 23; 6]%Z).

(** A total function to run the model with where [log10] is asked for:
    the integer part of the base-2 logarithm. *)
Definition ilog2 (v : F64.float) : F64.float :=
  match v with
  | S754_finite _ m e => F64.of_Z (Z.log2 (Z.pos m) + e)
  | _ => v
  end.
End Sample.

(** * Properties *)

(** ** Indexing *)

Lemma getitem_nat {A} (l : list A) (i : nat) (v : A) :
  l !! i = Some v -> getitem l (Z.of_nat i) = Ok v.
Proof.
  intros Hv. pose proof (lookup_lt_Some _ _ _ Hv) as Hlt.
  unfold getitem.
  destruct (Z.ltb_spec (Z.of_nat i) 0) as [Hn|_]; [lia|].
  destruct (Z.ltb_spec (Z.of_nat i) 0) as [Hn|_]; [lia|].
  destruct (Z.leb_spec (Z.of_nat (length l)) (Z.of_nat i)) as [Hn|_]; [lia|].
  simpl. rewrite Nat2Z.id, Hv. reflexivity.
Qed.

Lemma getitem_pred {A} (l : list A) (i : nat) (v : A) :
  (0 < i)%nat -> l !! (i - 1)%nat = Some v ->
  getitem l (Z.of_nat i - 1) = Ok v.
Proof.
  intros Hi Hv. replace (Z.of_nat i - 1)%Z with (Z.of_nat (i - 1)) by lia.
  now apply getitem_nat.
Qed.

Lemma getitem_succ {A} (l : list A) (i : nat) (v : A) :
  l !! (i + 1)%nat = Some v -> getitem l (Z.of_nat i + 1) = Ok v.
Proof.
  intros Hv. replace (Z.of_nat i + 1)%Z with (Z.of_nat (i + 1)) by lia.
  now apply getitem_nat.
Qed.

(** [l[-k]] is the [k]-th element from the end. *)
Lemma getitem_from_end {A} (l : list A) (k : nat) (v : A) :
  (0 < k <= length l)%nat -> l !! (length l - k)%nat = Some v ->
  getitem l (- Z.of_nat k) = Ok v.
Proof.
  intros Hk Hv. unfold getitem.
  destruct (Z.ltb_spec (- Z.of_nat k) 0) as [_|Hn]; [|lia].
  destruct (Z.ltb_spec (- Z.of_nat k + Z.of_nat (length l)) 0) as [Hn|_]; [lia|].
  destruct (Z.leb_spec (Z.of_nat (length l))
              (- Z.of_nat k + Z.of_nat (length l))) as [Hn|_]; [lia|].
  simpl.
  replace (Z.to_nat (- Z.of_nat k + Z.of_nat (length l)))
    with (length l - k)%nat by lia.
  rewrite Hv. reflexivity.
Qed.

Lemma getitem_Ok_lookup {A} (l : list A) (i : nat) (v : A) :
  getitem l (Z.of_nat i) = Ok v -> l !! i = Some v.
Proof.
  unfold getitem.
  destruct (Z.ltb_spec (Z.of_nat i) 0) as [Hn|_]; [lia|].
  destruct (_ || _); [discriminate|].
  rewrite Nat2Z.id. destruct (l !! i); [|discriminate].
  intros [= ->]. reflexivity.
Qed.

(** ** The derivative routine, over any scalar type *)

Section SafeDiffFacts.
Context {F : Type} `{Scalar F}.

Lemma lookup_item (l : list F) (i : nat) :
  (i < length l)%nat -> l !! i = Some (item l i).
Proof.
  intros Hi. unfold item.
  destruct (nth_lookup_or_length l i zero) as [Hs|Hge]; [exact Hs|lia].
Qed.

Lemma safe_diff_body_stencil (f x : list F) (n i : nat) :
  length f = n -> length x = n -> (2 <= n)%nat -> (i < n)%nat ->
  safe_diff_body f x n i = Ok (stencil f x n i).
Proof.
  intros Hf Hx Hn Hi. unfold safe_diff_body, stencil.
  destruct (Nat.eqb_spec i 0) as [->|Hi0].
  - change 1%Z with (Z.of_nat 1); change 0%Z with (Z.of_nat 0).
    rewrite (getitem_nat x 1 (item x 1)), (getitem_nat x 0 (item x 0)),
      (getitem_nat f 1 (item f 1)), (getitem_nat f 0 (item f 0))
      by (apply lookup_item; lia).
    reflexivity.
  - destruct (Nat.eqb_spec i (n - 1)) as [->|Hil].
    + change (-1)%Z with (- Z.of_nat 1)%Z; change (-2)%Z with (- Z.of_nat 2)%Z.
      rewrite (getitem_from_end x 1 (item x (n - 1))),
        (getitem_from_end x 2 (item x (n - 1 - 1))),
        (getitem_from_end f 1 (item f (n - 1))),
        (getitem_from_end f 2 (item f (n - 1 - 1)));
        try lia;
        try (rewrite ?Hf, ?Hx;
             replace (n - 2)%nat with (n - 1 - 1)%nat by lia;
             apply lookup_item; lia).
      reflexivity.
    + rewrite (getitem_nat x i (item x i)),
        (getitem_pred x i (item x (i - 1))),
        (getitem_succ x i (item x (i + 1))),
        (getitem_nat f i (item f i)),
        (getitem_pred f i (item f (i - 1))),
        (getitem_succ f i (item f (i + 1)));
        try lia; try (apply lookup_item; lia).
      reflexivity.
Qed.

Lemma safe_diff_loop_seq (f x : list F) (n : nat) :
  length f = n -> length x = n -> (2 <= n)%nat ->
  forall (k a : nat) (df : list F),
    length df = n -> (a + k <= n)%nat ->
    exists df', safe_diff_loop f x n (seq a k) df = Ok df' /\
      length df' = n /\
      forall i, (i < n)%nat ->
        df' !! i = if ((a <=? i) && (i <? a + k))%nat
                   then Some (stencil f x n i) else df !! i.
Proof.
  intros Hf Hx Hn k. induction k as [|k IH]; intros a df Hdf Hak.
  - exists df. simpl. repeat split; [assumption|].
    intros i Hi. destruct (Nat.leb_spec a i), (Nat.ltb_spec i (a + 0));
      simpl; try reflexivity; lia.
  - simpl. rewrite safe_diff_body_stencil by (assumption || lia). simpl.
    unfold setitem. destruct (Nat.ltb_spec a (length df)) as [_|Hbad]; [|lia].
    simpl.
    destruct (IH (S a) (<[a:=stencil f x n a]> df)) as (df' & Hrun & Hlen & Hat).
    { rewrite length_insert. assumption. }
    { lia. }
    exists df'. repeat split; [assumption..|].
    intros i Hi. rewrite (Hat i Hi).
    destruct (Nat.eq_dec a i) as [->|Hne].
    + rewrite list_lookup_insert_eq by lia.
      destruct (Nat.leb_spec (S i) i), (Nat.leb_spec i i),
        (Nat.ltb_spec i (S i + k)), (Nat.ltb_spec i (i + S k));
        simpl; try reflexivity; lia.
    + rewrite list_lookup_insert_ne by assumption.
      destruct (Nat.leb_spec (S a) i), (Nat.leb_spec a i),
        (Nat.ltb_spec i (S a + k)), (Nat.ltb_spec i (a + S k));
        simpl; try reflexivity; lia.
Qed.

(** With equal lengths the routine returns, and every element is the
    stencil at its index. *)
Lemma safe_diff_stencil (f x : list F) :
  length f = length x -> (2 <= length f)%nat ->
  exists df, safe_diff f x = Ok df /\ length df = length f /\
    forall i, (i < length f)%nat -> df !! i = Some (stencil f x (length f) i).
Proof.
  intros Hlen Hn. unfold safe_diff.
  destruct (Nat.ltb_spec (length f) 2) as [Hlt|_]; [lia|].
  destruct (safe_diff_loop_seq f x (length f) eq_refl (eq_sym Hlen) Hn
              (length f) 0%nat (zeros_like f))
    as (df & Hrun & Hl & Hat).
  { unfold zeros_like. apply length_replicate. }
  { lia. }
  exists df. repeat split; [assumption..|].
  intros i Hi. rewrite (Hat i Hi).
  destruct (Nat.leb_spec 0 i), (Nat.ltb_spec i (0 + length f));
    simpl; try reflexivity; lia.
Qed.

Lemma safe_diff_short (f x : list F) :
  (length f < 2)%nat -> safe_diff f x = Ok (replicate (length f) zero).
Proof.
  intros Hn. unfold safe_diff.
  destruct (Nat.ltb_spec (length f) 2) as [_|Hge]; [reflexivity|lia].
Qed.

(** The routine is total on equal-length arrays and keeps the length. *)
Lemma safe_diff_total (f x : list F) :
  length f = length x ->
  exists df, safe_diff f x = Ok df /\ length df = length f.
Proof.
  intros Hlen. destruct (Nat.lt_ge_cases (length f) 2) as [Hs|Hl].
  - exists (replicate (length f) zero). split.
    + now apply safe_diff_short.
    + apply length_replicate.
  - destruct (safe_diff_stencil f x Hlen Hl) as (df & Hrun & Hdl & _).
    exists df. split; assumption.
Qed.

End SafeDiffFacts.

(** ** The order of binary64 *)

Module F64Facts.
Import F64.

Lemma compare_cont_Eq (m1 m2 : positive) :
  Pos.compare_cont Eq m1 m2 = (Z.pos m1 ?= Z.pos m2)%Z.
Proof. reflexivity. Qed.

Ltac cmp_cases :=
  repeat match goal with
  | |- context [Pos.compare_cont Eq ?m1 ?m2] => rewrite (compare_cont_Eq m1 m2)
  | |- context [(?a ?= ?b)%Z] => destruct (Z.compare_spec a b)
  end.

Lemma ltb_key (a b : float) :
  is_nan a = false -> is_nan b = false ->
  (ltb a b = true <-> lex_lt (key a) (key b)).
Proof.
  unfold ltb, SFltb, lex_lt.
  destruct a as [[]|[]| |[] m1 e1], b as [[]|[]| |[] m2 e2]; simpl;
    try discriminate; intros _ _; cmp_cases; simpl;
    (split; [intros; try discriminate; lia | intros; try reflexivity; lia]).
Qed.

Lemma leb_key (a b : float) :
  is_nan a = false -> is_nan b = false ->
  (leb a b = true <-> lex_lt (key a) (key b) \/ key a = key b).
Proof.
  unfold leb, SFleb, lex_lt.
  destruct a as [[]|[]| |[] m1 e1], b as [[]|[]| |[] m2 e2]; simpl;
    try discriminate; intros _ _; cmp_cases; simpl;
    (split;
     [ intros; try discriminate;
       first [ left; lia | right; congruence | right; f_equal; lia ]
     | intros [?|He]; try reflexivity; try lia; inversion He; lia ]).
Qed.

(** A comparison with NaN is false. *)
Lemma ltb_nan_l (b : float) : ltb S754_nan b = false.
Proof. reflexivity. Qed.

Lemma ltb_nan_r (a : float) : ltb a S754_nan = false.
Proof. destruct a as [[]|[]| |[] m e]; reflexivity. Qed.

Lemma ltb_true_not_nan (a b : float) :
  ltb a b = true -> is_nan a = false /\ is_nan b = false.
Proof.
  destruct a as [[]|[]| |[] m1 e1], b as [[]|[]| |[] m2 e2];
    simpl; intros Hlt; try discriminate; split; reflexivity.
Qed.

Lemma leb_true_not_nan (a b : float) :
  leb a b = true -> is_nan a = false /\ is_nan b = false.
Proof.
  destruct a as [[]|[]| |[] m1 e1], b as [[]|[]| |[] m2 e2];
    simpl; intros Hlt; try discriminate; split; reflexivity.
Qed.

Ltac key_order :=
  repeat match goal with
  | H : ltb ?a ?b = true |- _ =>
      let Ha := fresh in let Hb := fresh in
      destruct (ltb_true_not_nan a b H) as [Ha Hb];
      apply (ltb_key a b Ha Hb) in H
  | H : leb ?a ?b = true |- _ =>
      let Ha := fresh in let Hb := fresh in
      destruct (leb_true_not_nan a b H) as [Ha Hb];
      apply (leb_key a b Ha Hb) in H
  end.

Lemma ltb_asym (a b : float) : ltb a b = true -> ltb b a = false.
Proof.
  intros Hab. destruct (ltb b a) eqn:Hba; [|reflexivity].
  key_order. unfold lex_lt in *. lia.
Qed.

Lemma ltb_leb (a b : float) : ltb a b = true -> leb a b = true.
Proof.
  intros Hab. destruct (ltb_true_not_nan a b Hab) as [Ha Hb].
  apply (leb_key a b Ha Hb). left. now apply (ltb_key a b Ha Hb).
Qed.

Lemma leb_refl (a : float) : is_nan a = false -> leb a a = true.
Proof. intros Ha. apply (leb_key a a Ha Ha). right. reflexivity. Qed.

Lemma not_leb_ltb (a b : float) :
  is_nan a = false -> is_nan b = false -> leb a b = false -> ltb b a = true.
Proof.
  intros Ha Hb Hab. apply (ltb_key b a Hb Ha).
  destruct (key a) as [[a1 a2] a3] eqn:Ka, (key b) as [[b1 b2] b3] eqn:Kb.
  assert (Hn : ~ (lex_lt (key a) (key b) \/ key a = key b)).
  { intros Hk. apply (leb_key a b Ha Hb) in Hk. congruence. }
  rewrite Ka, Kb in Hn. unfold lex_lt in *. simpl in *.
  assert (Hne : ~ (a1 = b1 /\ a2 = b2 /\ a3 = b3)).
  { intros (-> & -> & ->). apply Hn. right. reflexivity. }
  lia.
Qed.

Lemma leb_ltb_trans (a b c : float) :
  leb a b = true -> ltb b c = true -> ltb a c = true.
Proof.
  intros Hab Hbc.
  destruct (leb_true_not_nan a b Hab) as [Ha _].
  destruct (ltb_true_not_nan b c Hbc) as [_ Hc].
  apply (ltb_key a c Ha Hc). key_order. unfold lex_lt in *.
  destruct Hab as [Hab|Hab]; [lia|]. rewrite Hab. assumption.
Qed.

Lemma ltb_leb_trans (a b c : float) :
  ltb a b = true -> leb b c = true -> ltb a c = true.
Proof.
  intros Hab Hbc.
  destruct (ltb_true_not_nan a b Hab) as [Ha _].
  destruct (leb_true_not_nan b c Hbc) as [_ Hc].
  apply (ltb_key a c Ha Hc). key_order. unfold lex_lt in *.
  destruct Hbc as [Hbc|Hbc]; [lia|]. rewrite <- Hbc. assumption.
Qed.

Lemma leb_trans (a b c : float) :
  leb a b = true -> leb b c = true -> leb a c = true.
Proof.
  intros Hab Hbc.
  destruct (leb_true_not_nan a b Hab) as [Ha _].
  destruct (leb_true_not_nan b c Hbc) as [_ Hc].
  apply (leb_key a c Ha Hc). key_order. unfold lex_lt in *.
  destruct Hab as [Hab|Hab], Hbc as [Hbc|Hbc].
  - left. lia.
  - left. rewrite <- Hbc. exact Hab.
  - left. rewrite Hab. exact Hbc.
  - right. congruence.
Qed.

(** The decimal literal of the program. *)
Lemma eps64_literal : reads_as 1 (10 ^ 12) eps64 = true.
Proof. vm_compute. reflexivity. Qed.

End F64Facts.

(** ** [argmax] on an array without NaN *)

Module NpFacts.
Import F64 Np F64Facts.

Lemma existsb_is_nan_lookup (l : list float) :
  existsb is_nan l = false ->
  forall i v, l !! i = Some v -> is_nan v = false.
Proof.
  intros Hex i v Hv. destruct (is_nan v) eqn:Hn; [|reflexivity].
  assert (Hin : In v l) by (apply list_elem_of_In, list_elem_of_lookup; eauto).
  assert (Ht : existsb is_nan l = true) by (apply existsb_exists; eauto).
  congruence.
Qed.

Lemma lookup_snoc_cases {A} (pre : list A) (v w : A) (j : nat) :
  (pre ++ [v]) !! j = Some w ->
  pre !! j = Some w \/ (j = length pre /\ w = v).
Proof.
  intros Hj. apply lookup_snoc_Some in Hj.
  destruct Hj as [[_ Hj]|[-> ->]]; [left; assumption|right; split; reflexivity].
Qed.

Lemma argmax_scan_spec (ip : list float) :
  forall (pre : list float) (mp : float) (max_ind : nat),
    (forall i v, (pre ++ ip) !! i = Some v -> is_nan v = false) ->
    pre !! max_ind = Some mp ->
    (forall j v, pre !! j = Some v -> leb v mp = true) ->
    (forall j v, (j < max_ind)%nat -> pre !! j = Some v -> ltb v mp = true) ->
    is_argmax (pre ++ ip) (argmax_scan mp max_ind (length pre) ip).
Proof.
  induction ip as [|v ip IH]; intros pre mp max_ind Hnan Hmp Hle Hlt.
  - simpl. rewrite app_nil_r. exists mp. auto.
  - assert (Hv : is_nan v = false).
    { apply (Hnan (length pre)). rewrite lookup_app_r by lia.
      rewrite Nat.sub_diag. reflexivity. }
    assert (Hm : is_nan mp = false).
    { apply (Hnan max_ind). rewrite lookup_app_l; [assumption|].
      eapply lookup_lt_Some; eassumption. }
    assert (Hmi : (max_ind < length pre)%nat)
      by (eapply lookup_lt_Some; eassumption).
    simpl. rewrite Hv.
    replace (pre ++ v :: ip) with ((pre ++ [v]) ++ ip) in *
      by (rewrite <- app_assoc; reflexivity).
    replace (S (length pre)) with (length (pre ++ [v]))
      by (rewrite length_app; simpl; lia).
    destruct (leb v mp) eqn:Hvm; simpl.
    + apply IH; [assumption| | |].
      * rewrite lookup_app_l by assumption. assumption.
      * intros j w Hj. apply lookup_snoc_cases in Hj.
        destruct Hj as [Hj|[_ ->]]; [eauto|assumption].
      * intros j w Hjm Hj. apply lookup_snoc_cases in Hj.
        destruct Hj as [Hj|[-> _]]; [eauto|lia].
    + pose proof (not_leb_ltb v mp Hv Hm Hvm) as Hgt.
      apply IH; [assumption| | |].
      * rewrite lookup_app_r by lia. rewrite Nat.sub_diag. reflexivity.
      * intros j w Hj. apply lookup_snoc_cases in Hj.
        destruct Hj as [Hj|[_ ->]].
        -- apply ltb_leb. eapply leb_ltb_trans; [eauto|assumption].
        -- now apply leb_refl.
      * intros j w Hjm Hj. apply lookup_snoc_cases in Hj.
        destruct Hj as [Hj|[-> _]]; [|lia].
        eapply leb_ltb_trans; [eauto|assumption].
Qed.

Lemma argmin_scan_spec (ip : list float) :
  forall (pre : list float) (mp : float) (min_ind : nat),
    (forall i v, (pre ++ ip) !! i = Some v -> is_nan v = false) ->
    pre !! min_ind = Some mp ->
    (forall j v, pre !! j = Some v -> leb mp v = true) ->
    (forall j v, (j < min_ind)%nat -> pre !! j = Some v -> ltb mp v = true) ->
    is_argmin (pre ++ ip) (argmin_scan mp min_ind (length pre) ip).
Proof.
  induction ip as [|v ip IH]; intros pre mp min_ind Hnan Hmp Hle Hlt.
  - simpl. rewrite app_nil_r. exists mp. auto.
  - assert (Hv : is_nan v = false).
    { apply (Hnan (length pre)). rewrite lookup_app_r by lia.
      rewrite Nat.sub_diag. reflexivity. }
    assert (Hm : is_nan mp = false).
    { apply (Hnan min_ind). rewrite lookup_app_l; [assumption|].
      eapply lookup_lt_Some; eassumption. }
    assert (Hmi : (min_ind < length pre)%nat)
      by (eapply lookup_lt_Some; eassumption).
    simpl. rewrite Hv.
    replace (pre ++ v :: ip) with ((pre ++ [v]) ++ ip) in *
      by (rewrite <- app_assoc; reflexivity).
    replace (S (length pre)) with (length (pre ++ [v]))
      by (rewrite length_app; simpl; lia).
    destruct (leb mp v) eqn:Hvm; simpl.
    + apply IH; [assumption| | |].
      * rewrite lookup_app_l by assumption. assumption.
      * intros j w Hj. apply lookup_snoc_cases in Hj.
        destruct Hj as [Hj|[_ ->]]; [eauto|assumption].
      * intros j w Hjm Hj. apply lookup_snoc_cases in Hj.
        destruct Hj as [Hj|[-> _]]; [eauto|lia].
    + pose proof (not_leb_ltb mp v Hm Hv Hvm) as Hgt.
      apply IH; [assumption| | |].
      * rewrite lookup_app_r by lia. rewrite Nat.sub_diag. reflexivity.
      * intros j w Hj. apply lookup_snoc_cases in Hj.
        destruct Hj as [Hj|[_ ->]].
        -- apply ltb_leb. eapply ltb_leb_trans; [eassumption|eauto].
        -- now apply leb_refl.
      * intros j w Hjm Hj. apply lookup_snoc_cases in Hj.
        destruct Hj as [Hj|[-> _]]; [|lia].
        eapply ltb_leb_trans; [eassumption|eauto].
Qed.

(** On a non-empty array without NaN, [argmin] returns the lowest index
    of the minimum. *)
Lemma argmin_spec (a : list float) :
  a <> [] -> existsb is_nan a = false ->
  exists k, argmin a = Ok k /\ is_argmin a k.
Proof.
  intros Hne Hnan. destruct a as [|mp ip]; [congruence|].
  pose proof (existsb_is_nan_lookup _ Hnan) as Hall.
  assert (Hm : is_nan mp = false) by (apply (Hall 0%nat); reflexivity).
  unfold argmin. rewrite Hm. eexists; split; [reflexivity|].
  apply (argmin_scan_spec ip [mp] mp 0%nat); [exact Hall|reflexivity| |].
  - intros [|j] w Hj; [|destruct j; discriminate].
    injection Hj as <-. now apply leb_refl.
  - intros j w Hj. lia.
Qed.

Lemma is_argmax_lt (a : list float) (k : nat) :
  is_argmax a k -> (k < length a)%nat.
Proof. intros (m & Hm & _). eapply lookup_lt_Some; eassumption. Qed.

(** On a non-empty array without NaN, [argmax] returns the lowest index
    of the maximum. *)
Lemma argmax_spec (a : list float) :
  a <> [] -> existsb is_nan a = false ->
  exists k, argmax a = Ok k /\ is_argmax a k.
Proof.
  intros Hne Hnan. destruct a as [|mp ip]; [congruence|].
  pose proof (existsb_is_nan_lookup _ Hnan) as Hall.
  assert (Hm : is_nan mp = false) by (apply (Hall 0%nat); reflexivity).
  unfold argmax. rewrite Hm. eexists; split; [reflexivity|].
  apply (argmax_scan_spec ip [mp] mp 0%nat); [exact Hall|reflexivity| |].
  - intros [|j] w Hj; [|destruct j; discriminate].
    injection Hj as <-. now apply leb_refl.
  - intros j w Hj. lia.
Qed.

(** [argmax] and [argmin] fail on the empty array only. *)
Lemma argmax_scan_lt (ip : list float) :
  forall mp max_ind i, (max_ind < i)%nat ->
    (argmax_scan mp max_ind i ip < i + length ip)%nat.
Proof.
  induction ip as [|v ip IH]; intros mp max_ind i Hi; simpl; [lia|].
  destruct (negb (leb v mp)).
  - destruct (is_nan v); [lia|]. specialize (IH v i (S i)). lia.
  - specialize (IH mp max_ind (S i)). lia.
Qed.

Lemma argmin_scan_lt (ip : list float) :
  forall mp min_ind i, (min_ind < i)%nat ->
    (argmin_scan mp min_ind i ip < i + length ip)%nat.
Proof.
  induction ip as [|v ip IH]; intros mp min_ind i Hi; simpl; [lia|].
  destruct (negb (leb mp v)).
  - destruct (is_nan v); [lia|]. specialize (IH v i (S i)). lia.
  - specialize (IH mp min_ind (S i)). lia.
Qed.

Lemma argmax_total (a : list float) :
  (0 < length a)%nat -> exists k, argmax a = Ok k /\ (k < length a)%nat.
Proof.
  destruct a as [|mp ip]; simpl; [lia|]. intros _.
  destruct (is_nan mp); eexists; (split; [reflexivity|]); [lia|].
  pose proof (argmax_scan_lt ip mp 0%nat 1%nat). lia.
Qed.

Lemma argmin_total (a : list float) :
  (0 < length a)%nat -> exists k, argmin a = Ok k /\ (k < length a)%nat.
Proof.
  destruct a as [|mp ip]; simpl; [lia|]. intros _.
  destruct (is_nan mp); eexists; (split; [reflexivity|]); [lia|].
  pose proof (argmin_scan_lt ip mp 0%nat 1%nat). lia.
Qed.

Lemma amax_total (a : list float) :
  (0 < length a)%nat -> exists m, amax a = Ok m.
Proof. destruct a; simpl; [lia|]. eauto. Qed.

Lemma amin_total (a : list float) :
  (0 < length a)%nat -> exists m, amin a = Ok m.
Proof. destruct a; simpl; [lia|]. eauto. Qed.

Lemma foldl_maximum_spec (l : list float) :
  forall v, is_nan v = false -> Forall (fun w => is_nan w = false) l ->
    let m := foldl maximum v l in
    (m = v \/ m ∈ l) /\ leb v m = true /\
    (forall w, w ∈ l -> leb w m = true).
Proof.
  induction l as [|a l IH]; intros v Hv Hl; simpl.
  - split; [left; reflexivity|]. split; [now apply leb_refl|].
    intros w Hw. inversion Hw.
  - inversion Hl as [|? ? Ha Hl']; subst.
    assert (Hstep : maximum v a = if leb a v then v else a)
      by (unfold maximum; now rewrite Hv, orb_false_r).
    rewrite Hstep. destruct (leb a v) eqn:Hav.
    + destruct (IH v Hv Hl') as (Hin & Hvm & Hall).
      split; [destruct Hin; [left|right; apply list_elem_of_further]; assumption|].
      split; [assumption|].
      intros w Hw. apply elem_of_cons in Hw. destruct Hw as [->|Hw].
      * eapply leb_trans; eassumption.
      * now apply Hall.
    + pose proof (ltb_leb _ _ (not_leb_ltb _ _ Ha Hv Hav)) as Hva.
      destruct (IH a Ha Hl') as (Hin & Ham & Hall).
      split; [right; destruct Hin as [->|Hin];
              [apply list_elem_of_here|apply list_elem_of_further; assumption]|].
      split; [eapply leb_trans; eassumption|].
      intros w Hw. apply elem_of_cons in Hw. destruct Hw as [->|Hw].
      * assumption.
      * now apply Hall.
Qed.

Lemma foldl_minimum_spec (l : list float) :
  forall v, is_nan v = false -> Forall (fun w => is_nan w = false) l ->
    let m := foldl minimum v l in
    (m = v \/ m ∈ l) /\ leb m v = true /\
    (forall w, w ∈ l -> leb m w = true).
Proof.
  induction l as [|a l IH]; intros v Hv Hl; simpl.
  - split; [left; reflexivity|]. split; [now apply leb_refl|].
    intros w Hw. inversion Hw.
  - inversion Hl as [|? ? Ha Hl']; subst.
    assert (Hstep : minimum v a = if leb v a then v else a)
      by (unfold minimum; now rewrite Hv, orb_false_r).
    rewrite Hstep. destruct (leb v a) eqn:Hva.
    + destruct (IH v Hv Hl') as (Hin & Hmv & Hall).
      split; [destruct Hin; [left|right; apply list_elem_of_further]; assumption|].
      split; [assumption|].
      intros w Hw. apply elem_of_cons in Hw. destruct Hw as [->|Hw].
      * eapply leb_trans; eassumption.
      * now apply Hall.
    + pose proof (ltb_leb _ _ (not_leb_ltb _ _ Hv Ha Hva)) as Hav.
      destruct (IH a Ha Hl') as (Hin & Hma & Hall).
      split; [right; destruct Hin as [->|Hin];
              [apply list_elem_of_here|apply list_elem_of_further; assumption]|].
      split; [eapply leb_trans; eassumption|].
      intros w Hw. apply elem_of_cons in Hw. destruct Hw as [->|Hw].
      * assumption.
      * now apply Hall.
Qed.

(** Without NaN, [max] and [min] return an extremum of the array. *)
Lemma amax_spec (a : list float) (m : float) :
  Forall (fun w => is_nan w = false) a -> amax a = Ok m -> is_max a m.
Proof.
  destruct a as [|v l]; [discriminate|]. intros Hall [= <-].
  inversion Hall as [|? ? Hv Hl]; subst.
  destruct (foldl_maximum_spec l v Hv Hl) as (Hin & Hvm & Hle).
  split.
  - destruct Hin as [->|Hin];
      [apply list_elem_of_here|apply list_elem_of_further; assumption].
  - intros w Hw. apply elem_of_cons in Hw. destruct Hw as [->|Hw]; auto.
Qed.

Lemma amin_spec (a : list float) (m : float) :
  Forall (fun w => is_nan w = false) a -> amin a = Ok m -> is_min a m.
Proof.
  destruct a as [|v l]; [discriminate|]. intros Hall [= <-].
  inversion Hall as [|? ? Hv Hl]; subst.
  destruct (foldl_minimum_spec l v Hv Hl) as (Hin & Hmv & Hle).
  split.
  - destruct Hin as [->|Hin];
      [apply list_elem_of_here|apply list_elem_of_further; assumption].
  - intros w Hw. apply elem_of_cons in Hw. destruct Hw as [->|Hw]; auto.
Qed.

Lemma existsb_is_nan_Forall (l : list float) :
  existsb is_nan l = false -> Forall (fun w => is_nan w = false) l.
Proof.
  intros Hex. apply Forall_lookup. intros i v Hv.
  eapply existsb_is_nan_lookup; eassumption.
Qed.

Lemma Forall_not_nan_absolute (l : list float) :
  Forall (fun w => is_nan w = false) l ->
  Forall (fun w => is_nan w = false) (absolute l).
Proof.
  intros Hl. unfold absolute. apply Forall_map.
  eapply Forall_impl; [exact Hl|].
  intros [| | |] Hn; simpl in *; congruence.
Qed.

End NpFacts.

(** ** Construction of a [Transfer] *)

Module TransferFacts.
Import F64 Np F64Facts NpFacts Transfer.

Ltac inv_bind H :=
  match type of H with
  | bind ?m _ = Ok _ =>
      let E := fresh "E" in
      destruct m eqn:E; simpl in H; [|discriminate H]
  end.

(** What a passed validation says of two well-formed arrays. *)
Lemma validate_Ok (x y : ndarray) :
  wf x = true -> wf y = true -> validate x y = Ok tt ->
  length (data x) = length (data y) /\ (0 < length (data x))%nat /\
  shape x = [length (data x)] /\ shape y = [length (data y)] /\
  existsb is_nan (data x) = false /\ existsb is_nan (data y) = false /\
  existsb is_inf (data x) = false /\ existsb is_inf (data y) = false.
Proof.
  unfold wf, validate, ndim, shape0, size, any_isnan, any_isinf.
  intros Hx Hy. apply Nat.eqb_eq in Hx, Hy.
  destruct (shape x) as [|n [|? ?]]; try discriminate.
  destruct (shape y) as [|n' [|? ?]]; try discriminate.
  simpl in *. rewrite !Nat.mul_1_r in *. subst n n'.
  destruct (Nat.eqb_spec (length (data x)) (length (data y))) as [Hl|];
    simpl; [|discriminate].
  destruct (Nat.eqb_spec (length (data x)) 0); simpl; [discriminate|].
  destruct (Nat.eqb_spec (length (data y)) 0); simpl; [discriminate|].
  destruct (existsb is_nan (data x)); simpl; [discriminate|].
  destruct (existsb is_nan (data y)); simpl; [discriminate|].
  destruct (existsb is_inf (data x)); simpl; [discriminate|].
  destruct (existsb is_inf (data y)); simpl; [discriminate|].
  intros _. repeat split; try reflexivity; try assumption; lia.
Qed.

Section WithLog.
Variable log10 : float -> float.

Lemma length_log_Id (a : list float) : length (log_Id log10 a) = length a.
Proof. unfold log_Id, clip_min, absolute. now rewrite !length_map. Qed.

Lemma length_absolute (a : list float) : length (absolute a) = length a.
Proof. unfold absolute. now rewrite length_map. Qed.

Lemma select_total (device_type : string) (d : list float) :
  (0 < length d)%nat ->
  exists i, select device_type d = Ok i /\ (i < length d)%nat.
Proof.
  intros Hd. unfold select. destruct (String.eqb _ _).
  - now apply argmax_total.
  - now apply argmin_total.
Qed.

Lemma compute_gm_total (Vg I : Sequence.t) :
  length (Sequence.raw I) = length (Sequence.raw Vg) ->
  length (Sequence.forward I) = length (Sequence.forward Vg) ->
  length (Sequence.reverse I) = length (Sequence.reverse Vg) ->
  exists gm, _compute_gm Vg I = Ok gm /\
    length (Sequence.raw gm) = length (Sequence.raw I) /\
    length (Sequence.forward gm) = length (Sequence.forward I) /\
    length (Sequence.reverse gm) = length (Sequence.reverse I).
Proof.
  intros Hr Hf Hb. unfold _compute_gm.
  destruct (safe_diff_total _ _ Hr) as (r & -> & Hlr).
  destruct (safe_diff_total _ _ Hf) as (f & -> & Hlf).
  destruct (safe_diff_total _ _ Hb) as (b & -> & Hlb).
  simpl. eexists; split; [reflexivity|]. simpl. auto.
Qed.

Lemma compute_gm_max_total (Vg gm : Sequence.t) :
  (0 < length (Sequence.raw Vg))%nat ->
  (0 < length (Sequence.raw gm))%nat ->
  (0 < length (Sequence.forward gm))%nat ->
  (0 < length (Sequence.reverse gm))%nat ->
  exists p, _compute_gm_max Vg gm = Ok p.
Proof.
  intros Hv Hr Hf Hb. unfold _compute_gm_max.
  destruct (argmax_total _ Hr) as (i & -> & _).
  destruct (argmax_total _ Hv) as (k & -> & _).
  destruct (amax_total _ Hr) as (mr & ->).
  destruct (amax_total _ Hf) as (mf & ->).
  destruct (amax_total _ Hb) as (mb & ->).
  simpl. eauto.
Qed.

Lemma compute_I_max_total (Vg I : Sequence.t) :
  (0 < length (Sequence.raw Vg))%nat ->
  (0 < length (Sequence.raw I))%nat ->
  (0 < length (Sequence.forward I))%nat ->
  (0 < length (Sequence.reverse I))%nat ->
  exists p, _compute_I_max Vg I = Ok p.
Proof.
  intros Hv Hr Hf Hb. unfold _compute_I_max.
  rewrite <- length_absolute in Hr, Hf, Hb.
  destruct (argmax_total _ Hr) as (i & -> & _).
  destruct (argmax_total _ Hv) as (k & -> & _).
  destruct (amax_total _ Hr) as (mr & ->).
  destruct (amax_total _ Hf) as (mf & ->).
  destruct (amax_total _ Hb) as (mb & ->).
  simpl. eauto.
Qed.

Lemma compute_I_min_total (Vg I : Sequence.t) :
  (0 < length (Sequence.raw Vg))%nat ->
  (0 < length (Sequence.raw I))%nat ->
  (0 < length (Sequence.forward I))%nat ->
  (0 < length (Sequence.reverse I))%nat ->
  exists p, _compute_I_min Vg I = Ok p.
Proof.
  intros Hv Hr Hf Hb. unfold _compute_I_min.
  rewrite <- length_absolute in Hr, Hf, Hb.
  destruct (argmin_total _ Hr) as (i & -> & _).
  destruct (argmax_total _ Hv) as (k & -> & _).
  destruct (amin_total _ Hr) as (mr & ->).
  destruct (amin_total _ Hf) as (mf & ->).
  destruct (amin_total _ Hb) as (mb & ->).
  simpl. eauto.
Qed.

(** One leg of [_compute_Von]: the slope curve exists, an index is
    selected inside the leg, and the leg is read there. *)
Lemma Von_leg_total (device_type : string) (v i : list float) :
  length i = length v -> (0 < length v)%nat ->
  exists d idx w,
    safe_diff (log_Id log10 i) v = Ok d /\
    select device_type d = Ok idx /\
    getitem v (Z.of_nat idx) = Ok w /\ v !! idx = Some w.
Proof.
  intros Hl Hv.
  destruct (safe_diff_total (log_Id log10 i) v) as (d & Hd & Hld).
  { rewrite length_log_Id. assumption. }
  rewrite length_log_Id in Hld.
  destruct (select_total device_type d) as (idx & Hs & Hidx); [lia|].
  destruct (lookup_lt_is_Some_2 v idx) as [w Hw]; [lia|].
  exists d, idx, w. repeat split; try assumption.
  now apply getitem_nat.
Qed.

Lemma compute_Von_total (Vg I : Sequence.t) (device_type : string) :
  length (Sequence.raw I) = length (Sequence.raw Vg) ->
  length (Sequence.forward I) = length (Sequence.forward Vg) ->
  length (Sequence.reverse I) = length (Sequence.reverse Vg) ->
  (0 < length (Sequence.raw Vg))%nat ->
  (0 < length (Sequence.forward Vg))%nat ->
  (0 < length (Sequence.reverse Vg))%nat ->
  exists p, _compute_Von log10 Vg I device_type = Ok p.
Proof.
  intros Hr Hf Hb Hvr Hvf Hvb. unfold _compute_Von.
  destruct (Von_leg_total device_type _ _ Hr Hvr)
    as (dr & ir & wr & Hd1 & Hs1 & Hg1 & _).
  destruct (Von_leg_total device_type _ _ Hf Hvf)
    as (df & jf & wf' & Hd2 & Hs2 & Hg2 & _).
  destruct (Von_leg_total device_type _ _ Hb Hvb)
    as (db & jb & wb & Hd3 & Hs3 & Hg3 & _).
  destruct (argmax_total _ Hvr) as (k & Hk & _).
  destruct (Nat.ltb_spec 0 (length (Sequence.forward Vg))); [|lia].
  destruct (Nat.ltb_spec 0 (length (Sequence.reverse Vg))); [|lia].
  rewrite Hd1; cbn [bind]. rewrite Hs1; cbn [bind]. rewrite Hg1; cbn [bind].
  rewrite Hd2; cbn [bind]. rewrite Hs2; cbn [bind]. rewrite Hg2; cbn [bind].
  rewrite Hd3; cbn [bind]. rewrite Hs3; cbn [bind]. rewrite Hg3; cbn [bind].
  rewrite Hk; cbn [bind]. eauto.
Qed.

(** Every validated input constructs, and the fields are the results of
    the methods on the two split sequences. *)
Lemma init_run (x y : ndarray) (device_type : string) :
  wf x = true -> wf y = true -> validate x y = Ok tt ->
  exists t k,
    __init__ log10 x y device_type = Ok t /\
    argmax (data x) = Ok k /\ is_argmax (data x) k /\
    Vg t = legs k (data x) /\ I t = legs k (data y) /\
    _compute_gm (Vg t) (I t) = Ok (gm t) /\
    _compute_gm_max (Vg t) (gm t) = Ok (gm_max t) /\
    _compute_I_max (Vg t) (I t) = Ok (I_max t) /\
    _compute_I_min (Vg t) (I t) = Ok (I_min t) /\
    _compute_Von log10 (Vg t) (I t) device_type = Ok (Von t).
Proof.
  intros Hwx Hwy Hval.
  destruct (validate_Ok x y Hwx Hwy Hval)
    as (Hlen & Hpos & _ & _ & Hnx & _ & _ & _).
  destruct (argmax_spec (data x)) as (k & Hk & Hmax); [|assumption|].
  { intros E. rewrite E in Hpos. simpl in Hpos. lia. }
  pose proof (is_argmax_lt _ _ Hmax) as Hkn.
  set (V := legs k (data x)). set (C := legs k (data y)).
  assert (Hr : length (Sequence.raw C) = length (Sequence.raw V))
    by (simpl; lia).
  assert (Hf : length (Sequence.forward C) = length (Sequence.forward V))
    by (simpl; rewrite !length_take; lia).
  assert (Hb : length (Sequence.reverse C) = length (Sequence.reverse V))
    by (simpl; rewrite !length_drop; lia).
  assert (Hvr : (0 < length (Sequence.raw V))%nat) by (simpl; lia).
  assert (Hvf : (0 < length (Sequence.forward V))%nat)
    by (simpl; rewrite length_take; lia).
  assert (Hvb : (0 < length (Sequence.reverse V))%nat)
    by (simpl; rewrite length_drop; lia).
  destruct (compute_gm_total V C Hr Hf Hb) as (g & Hg & Hgr & Hgf & Hgb).
  destruct (compute_gm_max_total V g) as (p1 & Hp1); try lia.
  destruct (compute_I_max_total V C) as (p2 & Hp2); try lia.
  destruct (compute_I_min_total V C) as (p3 & Hp3); try lia.
  destruct (compute_Von_total V C device_type) as (p4 & Hp4); try lia.
  exists {| Vg := V; I := C; gm := g; gm_max := p1; I_max := p2;
            I_min := p3; Von := p4 |}, k.
  unfold __init__. rewrite Hval. simpl. rewrite Hk. simpl.
  fold (legs k (data x)) (legs k (data y)). fold V C.
  rewrite Hg. simpl. rewrite Hp1. simpl. rewrite Hp2. simpl.
  rewrite Hp3. simpl. rewrite Hp4. simpl.
  repeat split; assumption.
Qed.

End WithLog.
End TransferFacts.

(** ** What the methods return *)

Module MethodFacts.
Import F64 Np F64Facts NpFacts Transfer TransferFacts.

Lemma compute_gm_inv (Vg I g : Sequence.t) :
  _compute_gm Vg I = Ok g ->
  safe_diff (Sequence.raw I) (Sequence.raw Vg) = Ok (Sequence.raw g) /\
  safe_diff (Sequence.forward I) (Sequence.forward Vg)
    = Ok (Sequence.forward g) /\
  safe_diff (Sequence.reverse I) (Sequence.reverse Vg)
    = Ok (Sequence.reverse g).
Proof.
  unfold _compute_gm. intros Hrun. repeat inv_bind Hrun.
  injection Hrun as <-. simpl. auto.
Qed.

Lemma compute_gm_max_inv (Vg gm : Sequence.t) (p : Point.t) :
  _compute_gm_max Vg gm = Ok p ->
  exists i k mr mf mb,
    argmax (Sequence.raw gm) = Ok i /\ argmax (Sequence.raw Vg) = Ok k /\
    amax (Sequence.raw gm) = Ok mr /\
    amax (Sequence.forward gm) = Ok mf /\
    amax (Sequence.reverse gm) = Ok mb /\
    p = {| Point.raw := mr; Point.where_ := locate i k;
           Point.forward := Some mf; Point.reverse := Some mb |}.
Proof.
  unfold _compute_gm_max. intros Hrun. repeat inv_bind Hrun.
  injection Hrun as <-. eauto 12.
Qed.

Lemma compute_I_max_inv (Vg I : Sequence.t) (p : Point.t) :
  _compute_I_max Vg I = Ok p ->
  exists i k mr mf mb,
    argmax (absolute (Sequence.raw I)) = Ok i /\
    argmax (Sequence.raw Vg) = Ok k /\
    amax (absolute (Sequence.raw I)) = Ok mr /\
    amax (absolute (Sequence.forward I)) = Ok mf /\
    amax (absolute (Sequence.reverse I)) = Ok mb /\
    p = {| Point.raw := mr; Point.where_ := locate i k;
           Point.forward := Some mf; Point.reverse := Some mb |}.
Proof.
  unfold _compute_I_max. intros Hrun. repeat inv_bind Hrun.
  injection Hrun as <-. eauto 12.
Qed.

Lemma compute_I_min_inv (Vg I : Sequence.t) (p : Point.t) :
  _compute_I_min Vg I = Ok p ->
  exists i k mr mf mb,
    argmin (absolute (Sequence.raw I)) = Ok i /\
    argmax (Sequence.raw Vg) = Ok k /\
    amin (absolute (Sequence.raw I)) = Ok mr /\
    amin (absolute (Sequence.forward I)) = Ok mf /\
    amin (absolute (Sequence.reverse I)) = Ok mb /\
    p = {| Point.raw := mr; Point.where_ := locate i k;
           Point.forward := Some mf; Point.reverse := Some mb |}.
Proof.
  unfold _compute_I_min. intros Hrun. repeat inv_bind Hrun.
  injection Hrun as <-. eauto 12.
Qed.

Section WithLog.
Variable log10 : float -> float.

(** On legs that are not empty, [_compute_Von] reads each leg of [Vg] at
    the index selected on that leg's own slope curve. *)
Lemma compute_Von_inv (Vg I : Sequence.t) (device_type : string) (p : Point.t) :
  (0 < length (Sequence.forward Vg))%nat ->
  (0 < length (Sequence.reverse Vg))%nat ->
  _compute_Von log10 Vg I device_type = Ok p ->
  exists dr ir wr df jf wf db jb wb k,
    safe_diff (log_Id log10 (Sequence.raw I)) (Sequence.raw Vg) = Ok dr /\
    select device_type dr = Ok ir /\
    Sequence.raw Vg !! ir = Some wr /\
    safe_diff (log_Id log10 (Sequence.forward I)) (Sequence.forward Vg)
      = Ok df /\
    select device_type df = Ok jf /\
    Sequence.forward Vg !! jf = Some wf /\
    safe_diff (log_Id log10 (Sequence.reverse I)) (Sequence.reverse Vg)
      = Ok db /\
    select device_type db = Ok jb /\
    Sequence.reverse Vg !! jb = Some wb /\
    argmax (Sequence.raw Vg) = Ok k /\
    p = {| Point.raw := wr; Point.where_ := locate ir k;
           Point.forward := Some wf; Point.reverse := Some wb |}.
Proof.
  unfold _compute_Von. intros Hf Hb Hrun.
  destruct (Nat.ltb_spec 0 (length (Sequence.forward Vg))); [|lia].
  destruct (Nat.ltb_spec 0 (length (Sequence.reverse Vg))); [|lia].
  repeat inv_bind Hrun. injection Hrun as <-.
  repeat match goal with
  | E : bind ?m _ = Ok _ |- _ => inv_bind E; injection E as <-
  end.
  repeat match goal with
  | E : getitem _ (Z.of_nat _) = Ok _ |- _ => apply getitem_Ok_lookup in E
  end.
  do 10 eexists. repeat split; first [reflexivity | eassumption].
Qed.

End WithLog.
End MethodFacts.

(** ** Zero signals and the floor of the magnitude *)

Module VonFacts.
Import F64 Np F64Facts NpFacts Transfer.

Lemma sub_self (L : float) :
  is_finite L = true -> sub L L = S754_zero false.
Proof.
  destruct L as [[]|[]| |s m e]; simpl; try discriminate; try reflexivity.
  intros _. rewrite Z.sub_diag. reflexivity.
Qed.

(** A clamped denominator is never zero and never NaN. *)
Lemma clamp_shape (dx : float) :
  match clamp dx with
  | S754_finite _ _ _ | S754_infinity _ => True
  | _ => False
  end.
Proof.
  unfold clamp. destruct dx as [[]|[]| |s m e]; simpl; try exact Logic.I.
  destruct (ltb eps64 (S754_finite false m e)); exact Logic.I.
Qed.

Lemma div_zero_clamp (z dx : float) :
  is_zero z = true -> is_zero (div z (clamp dx)) = true.
Proof.
  intros Hz. pose proof (clamp_shape dx) as Hc.
  destruct z; try discriminate.
  destruct (clamp dx); simpl in *; try contradiction; reflexivity.
Qed.

Lemma add_zero (a b : float) :
  is_zero a = true -> is_zero b = true -> is_zero (add a b) = true.
Proof.
  destruct a as [[]| | |], b as [[]| | |]; try discriminate; reflexivity.
Qed.

Lemma div_zero_two (z : float) :
  is_zero z = true -> is_zero (div z two) = true.
Proof. destruct z; try discriminate. reflexivity. Qed.

(** The floor of the magnitude: [1e-12] below [1e-12], the magnitude
    itself otherwise. *)
Lemma floor_cases (v : float) :
  is_nan v = false ->
  maximum (SFabs v) eps64 = if ltb (SFabs v) eps64 then eps64 else SFabs v.
Proof.
  intros Hv. unfold maximum.
  assert (Ha : is_nan (SFabs v) = false) by (destruct v; simpl in *; congruence).
  rewrite Ha, orb_false_r.
  destruct (leb eps64 (SFabs v)) eqn:Hle.
  - destruct (ltb (SFabs v) eps64) eqn:Hlt; [|reflexivity].
    pose proof (leb_ltb_trans _ _ _ Hle Hlt) as Hself.
    pose proof (ltb_asym _ _ Hself). congruence.
  - now rewrite (not_leb_ltb eps64 (SFabs v) eq_refl Ha Hle).
Qed.

Lemma argmax_scan_zeros (ip : list float) :
  forall (s : bool) (i : nat),
    Forall (fun v => is_zero v = true) ip ->
    argmax_scan (S754_zero s) 0 i ip = 0%nat.
Proof.
  induction ip as [|v ip IH]; intros s i Hall; simpl; [reflexivity|].
  inversion Hall as [|? ? Hv Hip]; subst.
  destruct v; try discriminate. simpl. now apply IH.
Qed.

Lemma argmin_scan_zeros (ip : list float) :
  forall (s : bool) (i : nat),
    Forall (fun v => is_zero v = true) ip ->
    argmin_scan (S754_zero s) 0 i ip = 0%nat.
Proof.
  induction ip as [|v ip IH]; intros s i Hall; simpl; [reflexivity|].
  inversion Hall as [|? ? Hv Hip]; subst.
  destruct v; try discriminate. simpl. now apply IH.
Qed.

(** On an array of zeros both [argmax] and [argmin] return index 0. *)
Lemma argmax_zeros (l : list float) :
  (0 < length l)%nat -> Forall (fun v => is_zero v = true) l ->
  argmax l = Ok 0%nat /\ argmin l = Ok 0%nat.
Proof.
  destruct l as [|v ip]; simpl; [lia|]. intros _ Hall.
  inversion Hall as [|? ? Hv Hip]; subst.
  destruct v; try discriminate. simpl.
  now rewrite argmax_scan_zeros, argmin_scan_zeros.
Qed.

Lemma stencil_const_zero (f x : list float) (L : float) (n i : nat) :
  (forall j, (j < n)%nat -> item f j = L) -> is_finite L = true ->
  (2 <= n)%nat -> (i < n)%nat ->
  is_zero (stencil f x n i) = true.
Proof.
  intros Hf HL Hn Hi. unfold stencil, forward_diff, backward_diff.
  destruct (Nat.eqb_spec i 0) as [->|Hi0].
  - rewrite !Hf by lia. rewrite (sub_self L HL).
    now apply div_zero_clamp.
  - destruct (Nat.eqb_spec i (n - 1)) as [->|Hil].
    + rewrite !Hf by lia. rewrite (sub_self L HL).
      now apply div_zero_clamp.
    + rewrite !Hf by lia. rewrite (sub_self L HL).
      apply div_zero_two, add_zero; now apply div_zero_clamp.
Qed.

(** The derivative of a constant finite signal is zero at every index,
    whatever the spacing. *)
Lemma safe_diff_const_zero (x : list float) (L : float) :
  is_finite L = true ->
  exists df, safe_diff (replicate (length x) L) x = Ok df /\
    length df = length x /\ Forall (fun v => is_zero v = true) df.
Proof.
  intros HL. set (f := replicate (length x) L).
  assert (Hlf : length f = length x) by apply length_replicate.
  destruct (Nat.lt_ge_cases (length f) 2) as [Hs|Hge].
  - exists (replicate (length f) zero). split; [now apply safe_diff_short|].
    split; [rewrite length_replicate; assumption|].
    apply Forall_replicate. reflexivity.
  - destruct (safe_diff_stencil f x Hlf Hge) as (df & Hrun & Hl & Hat).
    exists df. split; [assumption|]. split; [lia|].
    apply Forall_lookup. intros i v Hv.
    pose proof (lookup_lt_Some _ _ _ Hv) as Hi.
    rewrite Hat in Hv by lia. injection Hv as <-.
    apply (stencil_const_zero f x L); try lia; [|assumption].
    intros j Hj. unfold item, f. rewrite nth_lookup.
    rewrite lookup_replicate_2 by lia. reflexivity.
Qed.

Lemma lookup_finite (l : list float) (i : nat) (v : float) :
  existsb is_nan l = false -> existsb is_inf l = false ->
  l !! i = Some v -> is_finite v = true.
Proof.
  intros Hn Hi Hv. unfold is_finite.
  assert (Hin : In v l) by (apply list_elem_of_In, list_elem_of_lookup; eauto).
  destruct (is_nan v) eqn:En.
  - assert (existsb is_nan l = true) by (apply existsb_exists; eauto).
    congruence.
  - destruct (is_inf v) eqn:Ei; [|reflexivity].
    assert (existsb is_inf l = true) by (apply existsb_exists; eauto).
    congruence.
Qed.

Section WithLog.
Variable log10 : float -> float.

Lemma log_Id_lookup (a : list float) (i : nat) (v : float) :
  a !! i = Some v ->
  log_Id log10 a !! i = Some (log10 (maximum (SFabs v) eps64)).
Proof.
  unfold log_Id, clip_min, absolute. revert i.
  induction a as [|w a IH]; intros [|i] Hv; try discriminate; simpl in *.
  - injection Hv as ->. reflexivity.
  - now apply IH.
Qed.

(** The log-magnitude of a current that is zero throughout is
    [log10(1e-12)] throughout. *)
Lemma log_Id_zeros (a : list float) :
  Forall (fun v => is_zero v = true) a ->
  log_Id log10 a = replicate (length a) (log10 eps64).
Proof.
  induction 1 as [|v a Hv _ IH]; [reflexivity|].
  unfold log_Id, clip_min, absolute in *. simpl. rewrite IH.
  destruct v; try discriminate. reflexivity.
Qed.

(** One leg of a zero current: the slope curve is zero and the first
    sample of the leg is selected. *)
Lemma Von_leg_zeros (device_type : string) (v i d : list float) (idx : nat) :
  length i = length v -> (0 < length v)%nat ->
  Forall (fun w => is_zero w = true) i ->
  is_finite (log10 eps64) = true ->
  safe_diff (log_Id log10 i) v = Ok d ->
  select device_type d = Ok idx ->
  Forall (fun w => is_zero w = true) d /\ idx = 0%nat.
Proof.
  intros Hl Hv Hz HL Hd Hs.
  rewrite (log_Id_zeros i Hz), Hl in Hd.
  destruct (safe_diff_const_zero v (log10 eps64) HL) as (d' & Hd' & Hl' & Hz').
  assert (d' = d) by congruence. subst d'.
  split; [assumption|].
  destruct (argmax_zeros d) as [Hmax Hmin]; [lia|assumption|].
  unfold select in Hs. destruct (String.eqb _ _); congruence.
Qed.

End WithLog.
End VonFacts.

(** * The claims *)

(** ** The derivative routine *)

Section DerivativeClaims.
Context {F : Type} `{Scalar F}.

(** C1. For equal-length [f] and [x] with at least two samples,
    [safe_diff] returns an array of the same length; index 0 holds the
    forward difference [(f[1]-f[0])/dx] with [dx = x[1]-x[0]], the last
    index holds the backward difference [(f[-1]-f[-2])/dx] with
    [dx = x[-1]-x[-2]], and every interior index [i] holds the average of
    [(f[i]-f[i-1])/dx1] and [(f[i+1]-f[i])/dx2]; each denominator passes
    through the stability clamp.  This holds over any scalar type, so over
    binary64 in particular. *)
Theorem C1_safe_diff_differences (f x : list F) :
  length f = length x -> (2 <= length f)%nat ->
  exists df, safe_diff f x = Ok df /\ length df = length f /\
    df !! 0%nat =
      Some (div (sub (item f 1) (item f 0))
                (clamp (sub (item x 1) (item x 0)))) /\
    df !! (length f - 1)%nat =
      Some (div (sub (item f (length f - 1)) (item f (length f - 2)))
                (clamp (sub (item x (length f - 1)) (item x (length f - 2))))) /\
    forall i, (0 < i < length f - 1)%nat ->
      df !! i =
        Some (div (add (div (sub (item f i) (item f (i - 1)))
                            (clamp (sub (item x i) (item x (i - 1)))))
                       (div (sub (item f (i + 1)) (item f i))
                            (clamp (sub (item x (i + 1)) (item x i)))))
                  two).
Proof.
  intros Hlen Hn.
  destruct (safe_diff_stencil f x Hlen Hn) as (df & Hrun & Hl & Hat).
  exists df. split; [assumption|]. split; [assumption|].
  split; [|split].
  - rewrite (Hat 0%nat) by lia. reflexivity.
  - rewrite (Hat (length f - 1)%nat) by lia. unfold stencil.
    destruct (Nat.eqb_spec (length f - 1) 0) as [E|_]; [lia|].
    rewrite Nat.eqb_refl. unfold backward_diff.
    replace (length f - 1 - 1)%nat with (length f - 2)%nat by lia.
    reflexivity.
  - intros i Hi. rewrite (Hat i) by lia. unfold stencil.
    destruct (Nat.eqb_spec i 0) as [E|_]; [lia|].
    destruct (Nat.eqb_spec i (length f - 1)) as [E|_]; [lia|].
    reflexivity.
Qed.

End DerivativeClaims.

Lemma C1_safe_diff_differences_witness :
  let f := map F64.of_Z [0; 1; 4]%Z in
  let x := map F64.of_Z [0; 1; 2]%Z in
  length f = length x /\ (2 <= length f)%nat /\
  exists df, safe_diff f x = Ok df /\ length df = length f /\
    df !! 0%nat =
      Some (div (sub (item f 1) (item f 0))
                (clamp (sub (item x 1) (item x 0)))).
Proof.
  cbv zeta. split; [reflexivity|]. split; [simpl; lia|].
  destruct (C1_safe_diff_differences
              (map F64.of_Z [0; 1; 4]%Z) (map F64.of_Z [0; 1; 2]%Z)
              eq_refl) as (df & Hrun & Hl & H0 & _).
  { simpl. lia. }
  exists df. split; [exact Hrun|]. split; [exact Hl|exact H0].
Defined.

(** ** The stability clamp, over binary64 *)

Module ClampClaims.
Import F64 F64Facts.

Lemma clamp_below (dx : float) :
  ltb (absf dx) eps = true -> clamp dx = eps.
Proof.
  intros Hlt. unfold clamp.
  change (gtb (absf dx) eps) with (ltb eps (absf dx)).
  now rewrite (ltb_asym _ _ Hlt).
Qed.

(** C2, as amended.  A denominator whose absolute value is greater than
    [1e-12] is used unchanged; every other one, whether its absolute value
    is below [1e-12], equal to it, or not a number, is replaced by the
    positive constant [1e-12].  A negative spacing of magnitude at most
    [1e-12] therefore becomes [+1e-12]. *)
Theorem C2_clamp_threshold (dx : float) :
  (gtb (absf dx) eps = true -> clamp dx = dx) /\
  (gtb (absf dx) eps = false -> clamp dx = eps) /\
  (ltb (absf dx) eps = true -> clamp dx = eps) /\
  (leb (absf dx) eps = true -> clamp dx = eps) /\
  eps = S754_finite false 4951760157141521 (-92).
Proof.
  repeat split.
  - intros Hgt. unfold clamp. now rewrite Hgt.
  - intros Hgt. unfold clamp. now rewrite Hgt.
  - apply clamp_below.
  - intros Hle. unfold clamp.
    change (gtb (absf dx) eps) with (ltb eps (absf dx)).
    destruct (ltb eps (absf dx)) eqn:Hlt; [|reflexivity].
    pose proof (leb_ltb_trans _ _ _ Hle Hlt) as Hself.
    pose proof (ltb_asym _ _ Hself). congruence.
Qed.

(** C2 as stated fails at the boundary: the spacing [-1e-12], which
    [x = [1e-12, 0]] produces, has an absolute value that is not below
    [1e-12], and yet it is replaced by [+1e-12]; both samples of the
    derivative of [f = [0, 1]] come out as [+1e12] instead of [-1e12]. *)
Lemma C2_boundary_counterexample :
  valid minus_eps = true /\
  ltb (absf minus_eps) eps = false /\
  clamp minus_eps = eps /\ clamp minus_eps <> minus_eps /\
  safe_diff [of_Z 0; of_Z 1] [eps64; of_Z 0]
  = Ok [div (of_Z 1) eps64; div (of_Z 1) eps64].
Proof.
  repeat split; try (vm_compute; reflexivity).
  vm_compute. discriminate.
Qed.

End ClampClaims.

(** ** Integers in binary64

    Integers below 2^53 in absolute value are binary64 values, and sums,
    differences, products and integer quotients of them are computed
    without rounding as long as the results stay below 2^53. *)

Module IntegerFloats.
Import F64.
Local Open Scope Z_scope.

Lemma iter_pos_iter {A} (f : A -> A) (n : positive) :
  forall x, SpecFloat.iter_pos f n x = Pos.iter f x n.
Proof.
  induction n as [n IH|n IH|]; intros x; simpl.
  - rewrite !IH. rewrite <- !Pos.iter_swap. reflexivity.
  - rewrite !IH. reflexivity.
  - reflexivity.
Qed.

Lemma shr_1_even (q : positive) :
  shr_1 (exact_rec (Z.pos q~0)) = exact_rec (Z.pos q).
Proof. reflexivity. Qed.

Lemma iter_shr_1 (n : positive) :
  forall q, Pos.iter shr_1 (exact_rec (Z.pos (Pos.iter xO q n))) n
            = exact_rec (Z.pos q).
Proof.
  induction n as [|n IH] using Pos.peano_ind; intros q.
  - reflexivity.
  - rewrite Pos.iter_succ_r. rewrite Pos.iter_succ.
    rewrite shr_1_even. apply IH.
Qed.

Lemma digits_iter_xO (n : positive) :
  forall q, Z.pos (digits2_pos (Pos.iter xO q n)) = Z.pos (digits2_pos q) + Z.pos n.
Proof.
  induction n as [|n IH] using Pos.peano_ind; intros q.
  - simpl. lia.
  - rewrite Pos.iter_succ. simpl digits2_pos. rewrite Pos2Z.inj_succ, IH. lia.
Qed.

Lemma Zpos_iter_xO (n : positive) :
  forall q, Z.pos (Pos.iter xO q n) = Z.pos q * 2 ^ Z.pos n.
Proof.
  induction n as [|n IH] using Pos.peano_ind; intros q.
  - simpl. lia.
  - rewrite Pos.iter_succ. rewrite Pos2Z.inj_xO, IH.
    rewrite Pos2Z.inj_succ, Z.pow_succ_r by lia. ring.
Qed.

Lemma Zpos_pshl q n : 0 <= n -> Z.pos (pshl q n) = Z.pos q * 2 ^ n.
Proof.
  destruct n; simpl; intros; try lia. apply Zpos_iter_xO.
Qed.

Lemma digits_pshl q n : 0 <= n ->
  Z.pos (digits2_pos (pshl q n)) = Z.pos (digits2_pos q) + n.
Proof.
  destruct n; simpl; intros; try lia. apply digits_iter_xO.
Qed.

(** The rounding of an exact mantissa that carries [n] trailing zero bits
    beyond its 53 digits. *)
Lemma round_aux_exact (s : bool) (q : positive) (n E : Z) :
  Z.pos (digits2_pos q) = 53 -> 0 <= n ->
  -1074 <= E + n <= 971 ->
  binary_round_aux prec emax s (Z.pos (pshl q n)) E loc_Exact
  = S754_finite s q (E + n).
Proof.
  intros Hq Hn HE. unfold binary_round_aux, shr_fexp.
  cbn [Zdigits2]. rewrite digits_pshl by lia. rewrite Hq.
  unfold fexp, emin, prec, emax.
  replace (Z.max (53 + n + E - 53) (3 - 1024 - 53) - E) with n by lia.
  cbn [shr_record_of_loc].
  assert (Hshr : shr {| shr_m := Z.pos (pshl q n);
                        shr_r := false; shr_s := false |} E n
                 = (exact_rec (Z.pos q), E + n)).
  { destruct n as [|k|k]; simpl; [f_equal; lia| |lia].
    rewrite iter_pos_iter. fold (exact_rec (Z.pos (Pos.iter xO q k))).
    rewrite iter_shr_1. reflexivity. }
  rewrite Hshr.
  cbn [exact_rec shr_m loc_of_shr_record round_nearest_even
       shr_record_of_loc Zdigits2].
  rewrite Hq.
  replace (Z.max (53 + (E + n) - 53) (3 - 1024 - 53) - (E + n)) with 0 by lia.
  cbn [shr shr_m].
  replace (E + n <=? 1024 - 53) with true by (symmetry; apply Z.leb_le; lia).
  reflexivity.
Qed.

Lemma pshl_pshl q a b : 0 <= a -> 0 <= b -> pshl (pshl q a) b = pshl q (a + b).
Proof.
  intros Ha Hb. apply Pos2Z.inj. rewrite !Zpos_pshl by lia.
  rewrite Z.pow_add_r by lia. ring.
Qed.

Lemma pshl_0 q : pshl q 0 = q.
Proof. reflexivity. Qed.

Lemma shl_align_left (m : positive) (e e' : Z) :
  e' <= e -> shl_align m e e' = (pshl m (e - e'), e').
Proof.
  intros He. unfold shl_align.
  destruct (e' - e) as [|d|d] eqn:Hd; try lia.
  - assert (e' = e) by lia. subst. rewrite Z.sub_diag. reflexivity.
  - replace (e - e') with (Z.pos d) by lia. reflexivity.
Qed.

Lemma shl_align_none (m : positive) (e e' : Z) :
  e <= e' -> shl_align m e e' = (m, e).
Proof.
  intros He. unfold shl_align.
  destruct (e' - e) as [|d|d] eqn:Hd; try lia; reflexivity.
Qed.

Lemma binary_round_shifted (s : bool) (z : positive) (K E : Z) :
  Z.pos (digits2_pos z) <= 53 -> 0 <= K ->
  -1074 <= E + K + Z.pos (digits2_pos z) - 53 <= 971 ->
  binary_round prec emax s (pshl z K) E = canon s z (E + K).
Proof.
  intros Hz HK HE. unfold binary_round, canon.
  rewrite digits_pshl by lia.
  set (dg := Z.pos (digits2_pos z)) in *.
  unfold fexp, emin, prec, emax.
  replace (Z.max (dg + K + E - 53) (3 - 1024 - 53)) with (dg + K + E - 53) by lia.
  destruct (Z.le_gt_cases 53 (dg + K)) as [Hge|Hlt].
  - rewrite shl_align_none by lia.
    replace (pshl z K) with (pshl (pshl z (53 - dg)) (K - (53 - dg)))
      by (rewrite pshl_pshl by lia; f_equal; lia).
    change (binary_round_aux 53 1024) with (binary_round_aux prec emax).
    rewrite round_aux_exact; try lia.
    + f_equal. lia.
    + rewrite digits_pshl by lia. fold dg. lia.
  - rewrite shl_align_left by lia.
    rewrite pshl_pshl by lia.
    replace (K + (E - (dg + K + E - 53))) with (53 - dg) by lia.
    change (binary_round_aux 53 1024) with (binary_round_aux prec emax).
    rewrite <- (pshl_0 (pshl z (53 - dg))) at 1.
    rewrite round_aux_exact; try lia.
    + f_equal. lia.
    + rewrite digits_pshl by lia. fold dg. lia.
Qed.

Lemma digits_bounds (z : positive) :
  2 ^ (Z.pos (digits2_pos z) - 1) <= Z.pos z < 2 ^ Z.pos (digits2_pos z).
Proof.
  induction z as [z IH|z IH|].
  - change (digits2_pos z~1) with (Pos.succ (digits2_pos z)).
    rewrite Pos2Z.inj_succ.
    replace (Z.succ (Z.pos (digits2_pos z)) - 1) with (Z.succ (Z.pos (digits2_pos z) - 1)) by lia.
    rewrite !Z.pow_succ_r by lia.
    assert (H : Z.pos z~1 = 2 * Z.pos z + 1) by reflexivity. rewrite H. lia.
  - change (digits2_pos z~0) with (Pos.succ (digits2_pos z)).
    rewrite Pos2Z.inj_succ.
    replace (Z.succ (Z.pos (digits2_pos z)) - 1) with (Z.succ (Z.pos (digits2_pos z) - 1)) by lia.
    rewrite !Z.pow_succ_r by lia.
    assert (H : Z.pos z~0 = 2 * Z.pos z) by reflexivity. rewrite H. lia.
  - change (1 <= 1 < 2). lia.
Qed.

Lemma digits_le_53 (z : positive) : Z.pos z < 2 ^ 53 -> Z.pos (digits2_pos z) <= 53.
Proof.
  intros Hz. pose proof (digits_bounds z) as [Hl _].
  destruct (Z.le_gt_cases (Z.pos (digits2_pos z)) 53) as [H|H]; [assumption|].
  assert (2 ^ 53 <= 2 ^ (Z.pos (digits2_pos z) - 1)) by (apply Z.pow_le_mono_r; lia).
  lia.
Qed.

Lemma of_Z_pos (z : positive) :
  Z.pos z < 2 ^ 53 -> of_Z (Z.pos z) = canon false z 0.
Proof.
  intros Hz. pose proof (digits_le_53 z Hz).
  unfold of_Z. simpl binary_normalize.
  rewrite <- (pshl_0 z) at 1. rewrite binary_round_shifted; [reflexivity|lia|lia|].
  pose proof (Pos2Z.is_pos (digits2_pos z)). lia.
Qed.

Lemma of_Z_neg (z : positive) :
  Z.pos z < 2 ^ 53 -> of_Z (Z.neg z) = canon true z 0.
Proof.
  intros Hz. pose proof (digits_le_53 z Hz).
  unfold of_Z. simpl binary_normalize.
  rewrite <- (pshl_0 z) at 1. rewrite binary_round_shifted; [reflexivity|lia|lia|].
  pose proof (Pos2Z.is_pos (digits2_pos z)). lia.
Qed.

Lemma canon_of_Z (s : bool) (p : positive) :
  Z.pos p < 2 ^ 53 -> canon s p 0 = of_Z (cond_Zopp s (Z.pos p)).
Proof.
  intros Hp. destruct s; simpl; symmetry; [apply of_Z_neg|apply of_Z_pos];
    assumption.
Qed.

Lemma of_Z_cases (z : Z) :
  Z.abs z < 2 ^ 53 -> z <> 0 ->
  exists s p, z = cond_Zopp s (Z.pos p) /\ Z.pos p < 2 ^ 53 /\
              of_Z z = canon s p 0.
Proof.
  intros Hz Hnz. destruct z as [|p|p]; [congruence| |].
  - exists false, p. split; [reflexivity|]. split; [lia|].
    apply of_Z_pos. lia.
  - exists true, p. split; [reflexivity|]. split; [lia|].
    apply of_Z_neg. lia.
Qed.

Lemma cond_Zopp_mul (s : bool) (a b : Z) :
  cond_Zopp s a * b = cond_Zopp s (a * b).
Proof. destruct s; simpl; ring. Qed.

(** An integer below 2^53 scaled by a power of two that the exponent takes
    back normalises to the integer. *)
Lemma normalize_scaled (z K : Z) :
  Z.abs z < 2 ^ 53 -> 0 <= K <= 1021 ->
  binary_normalize prec emax (z * 2 ^ K) (- K) false = of_Z z.
Proof.
  intros Hz HK. destruct z as [|p|p].
  - reflexivity.
  - pose proof (digits_le_53 p ltac:(lia)) as Hd.
    pose proof (Pos2Z.is_pos (digits2_pos p)).
    rewrite <- Zpos_pshl by lia. simpl binary_normalize.
    rewrite binary_round_shifted by lia.
    replace (- K + K) with 0 by lia. symmetry. apply of_Z_pos. lia.
  - pose proof (digits_le_53 p ltac:(lia)) as Hd.
    pose proof (Pos2Z.is_pos (digits2_pos p)).
    replace (Z.neg p * 2 ^ K) with (Z.neg (pshl p K))
      by (rewrite <- !Pos2Z.opp_pos, Zpos_pshl by lia; ring).
    simpl binary_normalize.
    rewrite binary_round_shifted by lia.
    replace (- K + K) with 0 by lia. symmetry. apply of_Z_neg. lia.
Qed.

(** The two mantissas of a sum, aligned on the smaller exponent. *)
Lemma aligned (p1 p2 : positive) :
  Z.pos p1 < 2 ^ 53 -> Z.pos p2 < 2 ^ 53 ->
  let e1 := 0 + Z.pos (digits2_pos p1) - 53 in
  let e2 := 0 + Z.pos (digits2_pos p2) - 53 in
  let ez := Z.min e1 e2 in
  0 <= - ez <= 1021 /\
  Z.pos (fst (shl_align (pshl p1 (53 - Z.pos (digits2_pos p1))) e1 ez))
  = Z.pos p1 * 2 ^ (- ez) /\
  Z.pos (fst (shl_align (pshl p2 (53 - Z.pos (digits2_pos p2))) e2 ez))
  = Z.pos p2 * 2 ^ (- ez).
Proof.
  intros H1 H2 e1 e2 ez.
  pose proof (digits_le_53 p1 H1). pose proof (digits_le_53 p2 H2).
  pose proof (Pos2Z.is_pos (digits2_pos p1)).
  pose proof (Pos2Z.is_pos (digits2_pos p2)).
  assert (ez <= e1) by (subst ez; lia). assert (ez <= e2) by (subst ez; lia).
  split; [subst ez e1 e2; lia|].
  rewrite !shl_align_left by assumption. cbn [fst].
  rewrite !pshl_pshl by (subst e1 e2; lia).
  rewrite !Zpos_pshl by (subst e1 e2; lia).
  split; do 2 f_equal; subst e1 e2; lia.
Qed.

Lemma add_canon (s1 s2 : bool) (p1 p2 : positive) :
  Z.pos p1 < 2 ^ 53 -> Z.pos p2 < 2 ^ 53 ->
  Z.abs (cond_Zopp s1 (Z.pos p1) + cond_Zopp s2 (Z.pos p2)) < 2 ^ 53 ->
  SFadd prec emax (canon s1 p1 0) (canon s2 p2 0)
  = of_Z (cond_Zopp s1 (Z.pos p1) + cond_Zopp s2 (Z.pos p2)).
Proof.
  intros H1 H2 Hs. unfold canon. cbn [SFadd].
  destruct (aligned p1 p2 H1 H2) as (HK & E1 & E2). cbv zeta in HK, E1, E2.
  cbv zeta. rewrite E1, E2.
  set (ez := Z.min _ _) in *.
  rewrite <- !cond_Zopp_mul, <- Z.mul_add_distr_r.
  replace ez with (- - ez) at 2 by lia.
  apply normalize_scaled; [assumption|lia].
Qed.

Lemma sub_canon (s1 s2 : bool) (p1 p2 : positive) :
  Z.pos p1 < 2 ^ 53 -> Z.pos p2 < 2 ^ 53 ->
  Z.abs (cond_Zopp s1 (Z.pos p1) - cond_Zopp s2 (Z.pos p2)) < 2 ^ 53 ->
  SFsub prec emax (canon s1 p1 0) (canon s2 p2 0)
  = of_Z (cond_Zopp s1 (Z.pos p1) - cond_Zopp s2 (Z.pos p2)).
Proof.
  intros H1 H2 Hs. unfold canon. cbn [SFsub].
  destruct (aligned p1 p2 H1 H2) as (HK & E1 & E2). cbv zeta in HK, E1, E2.
  cbv zeta. rewrite E1, E2.
  set (ez := Z.min _ _) in *.
  rewrite <- !cond_Zopp_mul, <- Z.mul_sub_distr_r.
  replace ez with (- - ez) at 2 by lia.
  apply normalize_scaled; [assumption|lia].
Qed.

(** Sums and differences of integers are exact while they stay below
    2^53. *)
Lemma add_of_Z (a b : Z) :
  Z.abs a < 2 ^ 53 -> Z.abs b < 2 ^ 53 -> Z.abs (a + b) < 2 ^ 53 ->
  SFadd prec emax (of_Z a) (of_Z b) = of_Z (a + b).
Proof.
  intros Ha Hb Hab.
  destruct (Z.eq_dec a 0) as [->|Hna].
  { destruct (Z.eq_dec b 0) as [->|Hnb]; [reflexivity|].
    destruct (of_Z_cases b Hb Hnb) as (s & p & -> & Hp & E).
    rewrite Z.add_0_l, E. reflexivity. }
  destruct (of_Z_cases a Ha Hna) as (s1 & p1 & -> & Hp1 & E1).
  destruct (Z.eq_dec b 0) as [->|Hnb].
  { rewrite Z.add_0_r, E1. reflexivity. }
  destruct (of_Z_cases b Hb Hnb) as (s2 & p2 & -> & Hp2 & E2).
  rewrite E1, E2. apply add_canon; assumption.
Qed.

Lemma sub_of_Z (a b : Z) :
  Z.abs a < 2 ^ 53 -> Z.abs b < 2 ^ 53 -> Z.abs (a - b) < 2 ^ 53 ->
  SFsub prec emax (of_Z a) (of_Z b) = of_Z (a - b).
Proof.
  intros Ha Hb Hab.
  destruct (Z.eq_dec b 0) as [->|Hnb].
  { rewrite Z.sub_0_r.
    destruct (Z.eq_dec a 0) as [->|Hna]; [reflexivity|].
    destruct (of_Z_cases a Ha Hna) as (s & p & -> & Hp & E).
    rewrite E. reflexivity. }
  destruct (of_Z_cases b Hb Hnb) as (s2 & p2 & -> & Hp2 & E2).
  destruct (Z.eq_dec a 0) as [->|Hna].
  { rewrite E2. change (of_Z 0) with (S754_zero false). unfold canon.
    cbn [SFsub]. fold (canon (negb s2) p2 0). rewrite canon_of_Z by assumption.
    f_equal. destruct s2; simpl; lia. }
  destruct (of_Z_cases a Ha Hna) as (s1 & p1 & -> & Hp1 & E1).
  rewrite E1, E2. apply sub_canon; assumption.
Qed.

Lemma round_aux_shifted (s : bool) (z : positive) (K E : Z) :
  Z.pos (digits2_pos z) <= 53 -> 53 - Z.pos (digits2_pos z) <= K ->
  -1074 <= E + K + Z.pos (digits2_pos z) - 53 <= 971 ->
  binary_round_aux prec emax s (Z.pos (pshl z K)) E loc_Exact
  = canon s z (E + K).
Proof.
  intros Hz HK HE.
  set (dg := Z.pos (digits2_pos z)) in *.
  replace (pshl z K) with (pshl (pshl z (53 - dg)) (K - (53 - dg)))
    by (rewrite pshl_pshl by lia; f_equal; lia).
  rewrite round_aux_exact; try lia.
  - unfold canon. fold dg. f_equal. lia.
  - rewrite digits_pshl by lia. fold dg. lia.
Qed.

Lemma digits_mul (a b : positive) :
  Z.pos (digits2_pos a) + Z.pos (digits2_pos b) - 1
  <= Z.pos (digits2_pos (a * b))
  <= Z.pos (digits2_pos a) + Z.pos (digits2_pos b).
Proof.
  pose proof (digits_bounds a) as [Ha1 Ha2].
  pose proof (digits_bounds b) as [Hb1 Hb2].
  pose proof (digits_bounds (a * b)) as [Hc1 Hc2].
  rewrite Pos2Z.inj_mul in Hc1, Hc2.
  set (da := Z.pos (digits2_pos a)) in *.
  set (db := Z.pos (digits2_pos b)) in *.
  set (dc := Z.pos (digits2_pos (a * b))) in *.
  assert (0 < da) by (subst da; lia). assert (0 < db) by (subst db; lia).
  assert (0 < dc) by (subst dc; lia).
  assert (Hu : Z.pos a * Z.pos b < 2 ^ (da + db)).
  { rewrite Z.pow_add_r by lia. apply Z.mul_lt_mono_nonneg; lia. }
  assert (Hl : 2 ^ (da - 1 + (db - 1)) <= Z.pos a * Z.pos b).
  { rewrite Z.pow_add_r by lia. apply Z.mul_le_mono_nonneg; try lia;
      apply Z.pow_nonneg; lia. }
  split.
  - assert (2 ^ (da - 1 + (db - 1)) < 2 ^ dc) by lia.
    apply Z.pow_lt_mono_r_iff in H2; lia.
  - assert (2 ^ (dc - 1) < 2 ^ (da + db)) by lia.
    apply Z.pow_lt_mono_r_iff in H2; lia.
Qed.

Lemma digits_mul_le (a b : positive) :
  Z.pos (digits2_pos b) <= Z.pos (digits2_pos (a * b)).
Proof.
  pose proof (digits_mul a b). pose proof (Pos2Z.is_pos (digits2_pos a)). lia.
Qed.

(** Products of integers are exact while they stay below 2^53. *)
Lemma mul_canon (s1 s2 : bool) (p1 p2 : positive) :
  Z.pos (p1 * p2) < 2 ^ 53 ->
  SFmul prec emax (canon s1 p1 0) (canon s2 p2 0)
  = canon (xorb s1 s2) (p1 * p2) 0.
Proof.
  intros Hp. unfold canon at 1 2. cbn [SFmul].
  pose proof (digits_le_53 _ Hp) as Hd.
  pose proof (digits_mul p1 p2) as [Hm1 Hm2].
  pose proof (digits_mul_le p1 p2) as Hm3.
  pose proof (digits_mul_le p2 p1) as Hm4. rewrite Pos.mul_comm in Hm4.
  set (d1 := Z.pos (digits2_pos p1)) in *.
  set (d2 := Z.pos (digits2_pos p2)) in *.
  set (d := Z.pos (digits2_pos (p1 * p2))) in *.
  assert (0 < d1) by (subst d1; lia). assert (0 < d2) by (subst d2; lia).
  replace (pshl p1 (53 - d1) * pshl p2 (53 - d2))%positive
    with (pshl (p1 * p2) (53 - d1 + (53 - d2))).
  2:{ apply Pos2Z.inj. rewrite Pos2Z.inj_mul, !Zpos_pshl by lia.
      rewrite Pos2Z.inj_mul, Z.pow_add_r by lia. ring. }
  rewrite round_aux_shifted; fold d; try lia.
  f_equal. lia.
Qed.

Lemma mul_of_Z (a b : Z) :
  a <> 0 -> b <> 0 -> Z.abs (a * b) < 2 ^ 53 ->
  SFmul prec emax (of_Z a) (of_Z b) = of_Z (a * b).
Proof.
  intros Hna Hnb Hab.
  assert (Ha : Z.abs a < 2 ^ 53) by nia.
  assert (Hb : Z.abs b < 2 ^ 53) by nia.
  destruct (of_Z_cases a Ha Hna) as (s1 & p1 & -> & Hp1 & E1).
  destruct (of_Z_cases b Hb Hnb) as (s2 & p2 & -> & Hp2 & E2).
  rewrite E1, E2.
  assert (Hp : Z.pos (p1 * p2) < 2 ^ 53).
  { rewrite Pos2Z.inj_mul. destruct s1, s2; simpl in Hab; lia. }
  rewrite mul_canon by assumption. rewrite canon_of_Z by assumption.
  f_equal. rewrite Pos2Z.inj_mul. destruct s1, s2; simpl; lia.
Qed.

(** A product with zero is a zero, of either sign. *)
Lemma mul_of_Z_zero (a b : Z) :
  Z.abs a < 2 ^ 53 -> Z.abs b < 2 ^ 53 -> a * b = 0 ->
  exists s, SFmul prec emax (of_Z a) (of_Z b) = S754_zero s.
Proof.
  intros Ha Hb Hab.
  destruct (Z.eq_dec a 0) as [->|Hna].
  - destruct (Z.eq_dec b 0) as [->|Hnb]; [eexists; reflexivity|].
    destruct (of_Z_cases b Hb Hnb) as (s & p & -> & Hp & E).
    rewrite E. eexists. reflexivity.
  - assert (b = 0) by nia. subst b.
    destruct (of_Z_cases a Ha Hna) as (s & p & -> & Hp & E).
    rewrite E. eexists. reflexivity.
Qed.

Lemma add_zero_of_Z (s : bool) (c : Z) :
  Z.abs c < 2 ^ 53 -> SFadd prec emax (S754_zero s) (of_Z c) = of_Z c.
Proof.
  intros Hc. destruct (Z.eq_dec c 0) as [->|Hnc].
  - destruct s; reflexivity.
  - destruct (of_Z_cases c Hc Hnc) as (s' & p & -> & Hp & E).
    rewrite E. reflexivity.
Qed.

(** [m*x + c] on integers, as binary64 evaluates it. *)
Lemma linear_of_Z (m c xi : Z) :
  Z.abs m < 2 ^ 53 -> Z.abs xi < 2 ^ 53 -> Z.abs c < 2 ^ 53 ->
  Z.abs (m * xi) < 2 ^ 53 -> Z.abs (m * xi + c) < 2 ^ 53 ->
  SFadd prec emax (SFmul prec emax (of_Z m) (of_Z xi)) (of_Z c)
  = of_Z (m * xi + c).
Proof.
  intros Hm Hx Hc Hmx Hs.
  destruct (Z.eq_dec (m * xi) 0) as [Hz|Hnz].
  - destruct (mul_of_Z_zero m xi Hm Hx Hz) as (s & ->).
    rewrite Hz, Z.add_0_l. apply add_zero_of_Z. assumption.
  - rewrite mul_of_Z by nia. apply add_of_Z; assumption.
Qed.

Lemma div_eucl_exact (q d : Z) : 0 < d -> Z.div_eucl (q * d) d = (q, 0).
Proof.
  intros Hd.
  pose proof (Z.div_mul q d ltac:(lia)) as Hq.
  pose proof (Z.mod_mul q d ltac:(lia)) as Hr.
  unfold Z.div, Z.modulo in Hq, Hr.
  destruct (Z.div_eucl (q * d) d) as [q' r']. congruence.
Qed.

(** The core of a division whose quotient is an integer. *)
Lemma div_core_exact (m1 m2 Q : positive) (e1 e2 : Z) :
  Z.pos (digits2_pos m1) = 53 -> Z.pos (digits2_pos m2) = 53 ->
  -1021 <= e1 - e2 ->
  Z.pos m1 * 2 ^ 53 = Z.pos Q * Z.pos m2 ->
  SFdiv_core_binary prec emax (Z.pos m1) e1 (Z.pos m2) e2
  = (Z.pos Q, e1 - e2 - 53, loc_Exact).
Proof.
  intros H1 H2 He HQ. unfold SFdiv_core_binary. cbn [Zdigits2].
  rewrite H1, H2. unfold fexp, emin, prec, emax.
  replace (Z.min (Z.max (53 + e1 - (53 + e2) - 53) (3 - 1024 - 53)) (e1 - e2))
    with (e1 - e2 - 53) by lia.
  replace (e1 - e2 - (e1 - e2 - 53)) with 53 by lia.
  cbv iota. rewrite Z.shiftl_mul_pow2 by lia. rewrite HQ.
  rewrite div_eucl_exact by lia.
  unfold new_location, new_location_even, new_location_odd.
  destruct (Z.even (Z.pos m2)); reflexivity.
Qed.

(** A quotient of integers that is an integer is exact. *)
Lemma div_canon (s1 s2 : bool) (q d : positive) :
  Z.pos (q * d) < 2 ^ 53 ->
  SFdiv prec emax (canon s1 (q * d) 0) (canon s2 d 0)
  = canon (xorb s1 s2) q 0.
Proof.
  intros Hp. unfold canon at 1 2. cbn [SFdiv].
  pose proof (digits_le_53 _ Hp) as Hd.
  pose proof (digits_mul q d) as [Hm1 Hm2].
  pose proof (digits_mul_le q d) as Hm3.
  pose proof (digits_mul_le d q) as Hm4. rewrite Pos.mul_comm in Hm4.
  set (dq := Z.pos (digits2_pos q)) in *.
  set (dd := Z.pos (digits2_pos d)) in *.
  set (dp := Z.pos (digits2_pos (q * d))) in *.
  assert (0 < dq) by (subst dq; lia). assert (0 < dd) by (subst dd; lia).
  rewrite (div_core_exact _ _ (pshl q (53 + dd - dp))).
  - rewrite round_aux_shifted; fold dq; try lia.
    unfold canon. fold dq. f_equal. lia.
  - rewrite digits_pshl by lia. fold dp. lia.
  - rewrite digits_pshl by lia. fold dd. lia.
  - lia.
  - rewrite !Zpos_pshl by lia. rewrite Pos2Z.inj_mul.
    replace (53 + dd - dp) with (53 - dp + 53 - (53 - dd)) by lia.
    rewrite <- (Z.mul_assoc _ (2 ^ (53 - dp))), <- Z.pow_add_r by lia.
    replace (53 - dp + 53) with (53 - dp + 53 - (53 - dd) + (53 - dd)) at 1
      by lia.
    rewrite Z.pow_add_r by lia. ring.
Qed.

Lemma div_of_Z (m d : Z) :
  m <> 0 -> d <> 0 -> Z.abs (m * d) < 2 ^ 53 ->
  SFdiv prec emax (of_Z (m * d)) (of_Z d) = of_Z m.
Proof.
  intros Hnm Hnd Hmd.
  assert (Hm : Z.abs m < 2 ^ 53) by nia.
  assert (Hd : Z.abs d < 2 ^ 53) by nia.
  destruct (of_Z_cases m Hm Hnm) as (s1 & q & -> & Hq & E1).
  destruct (of_Z_cases d Hd Hnd) as (s2 & p & -> & Hp & E2).
  assert (Hqp : Z.pos (q * p) < 2 ^ 53).
  { rewrite Pos2Z.inj_mul. destruct s1, s2; simpl in Hmd; lia. }
  rewrite E1, E2.
  replace (cond_Zopp s1 (Z.pos q) * cond_Zopp s2 (Z.pos p))
    with (cond_Zopp (xorb s1 s2) (Z.pos (q * p)))
    by (rewrite Pos2Z.inj_mul; destruct s1, s2; simpl; lia).
  rewrite <- canon_of_Z by assumption.
  rewrite div_canon by assumption.
  f_equal. destruct s1, s2; reflexivity.
Qed.

Lemma div_zero_of_Z (s : bool) (d : Z) :
  d <> 0 -> Z.abs d < 2 ^ 53 ->
  exists s', SFdiv prec emax (S754_zero s) (of_Z d) = S754_zero s'.
Proof.
  intros Hnd Hd. destruct (of_Z_cases d Hd Hnd) as (s2 & p & -> & Hp & E).
  rewrite E. eexists. reflexivity.
Qed.

(** A nonzero integer spacing is beyond the threshold [1e-12] and is used
    as it is. *)
Lemma spacing_of_Z (d : Z) :
  d <> 0 -> Z.abs d < 2 ^ 53 ->
  gtb (absf (of_Z d)) eps = true /\ clamp (of_Z d) = of_Z d.
Proof.
  intros Hnd Hd. destruct (of_Z_cases d Hd Hnd) as (s & p & -> & Hp & E).
  rewrite E.
  assert (Hgt : gtb (absf (canon s p 0)) eps = true).
  { unfold canon. simpl. unfold ltb, SFltb, SFcompare, eps64.
    pose proof (Pos2Z.is_pos (digits2_pos p)).
    destruct (Z.compare_spec (-92) (0 + Z.pos (digits2_pos p) - 53));
      (reflexivity || lia). }
  split; [exact Hgt|]. unfold clamp. rewrite Hgt. reflexivity.
Qed.

Lemma eqb_zero (s : bool) : eqb (S754_zero s) (of_Z 0) = true.
Proof. destruct s; reflexivity. Qed.

Lemma eqb_of_Z_refl (m : Z) : Z.abs m < 2 ^ 53 -> eqb (of_Z m) (of_Z m) = true.
Proof.
  intros Hm. destruct (Z.eq_dec m 0) as [->|Hnm]; [reflexivity|].
  destruct (of_Z_cases m Hm Hnm) as (s & p & _ & _ & ->).
  unfold canon, eqb, SFeqb, SFcompare.
  destruct s; rewrite Z.compare_refl, Pos.compare_cont_refl; reflexivity.
Qed.

Lemma item_map {A : Type} (g : A -> float) (d : A) (l : list A) (i : nat) :
  (i < length l)%nat -> item (map g l) i = g (nth i l d).
Proof.
  unfold item. revert i. induction l as [|a l IH]; intros [|i] Hi;
    simpl in *; try lia; [reflexivity|]. apply IH. lia.
Qed.

(** One one-sided difference of an integer line over two distinct integer
    samples [a] and [b]: the slope, and a zero for the slope 0. *)
Lemma one_sided_of_Z (m c a b : Z) :
  Z.abs a < 2 ^ 52 -> Z.abs b < 2 ^ 52 ->
  Z.abs (m * a + c) < 2 ^ 52 -> Z.abs (m * b + c) < 2 ^ 52 -> a <> b ->
  let v := div (sub (of_Z (m * b + c)) (of_Z (m * a + c)))
               (clamp (sub (of_Z b) (of_Z a))) in
  (m <> 0 -> v = of_Z m) /\ (m = 0 -> exists s, v = S754_zero s).
Proof.
  intros Ha Hb Hfa Hfb Hab. cbv zeta.
  change (@sub float scalar64) with (SFsub prec emax).
  change (@div float scalar64) with (SFdiv prec emax).
  change (2 ^ 52) with 4503599627370496 in *.
  rewrite !sub_of_Z by (change (2 ^ 53) with 9007199254740992; lia).
  replace (m * b + c - (m * a + c)) with (m * (b - a)) by ring.
  assert (Hd : Z.abs (m * (b - a)) < 2 ^ 53)
    by (change (2 ^ 53) with 9007199254740992; lia).
  assert (Hs : Z.abs (b - a) < 2 ^ 53)
    by (change (2 ^ 53) with 9007199254740992; lia).
  destruct (spacing_of_Z (b - a) ltac:(lia) Hs) as [_ ->].
  split.
  - intros Hm. apply div_of_Z; [assumption|lia|assumption].
  - intros ->. rewrite Z.mul_0_l. apply div_zero_of_Z; [lia|assumption].
Qed.

(** The mean of two one-sided differences that both are the slope. *)
Lemma mean_of_Z (m : Z) (v1 v2 : float) :
  Z.abs m < 2 ^ 52 ->
  (m <> 0 -> v1 = of_Z m) /\ (m = 0 -> exists s, v1 = S754_zero s) ->
  (m <> 0 -> v2 = of_Z m) /\ (m = 0 -> exists s, v2 = S754_zero s) ->
  let v := div (add v1 v2) two in
  (m <> 0 -> v = of_Z m) /\ (m = 0 -> exists s, v = S754_zero s).
Proof.
  intros Hm [H1 H1'] [H2 H2']. cbv zeta. split.
  - intros Hnm. rewrite (H1 Hnm), (H2 Hnm).
    change (@add float scalar64) with (SFadd prec emax).
    change (@div float scalar64) with (SFdiv prec emax).
    change (@two float scalar64) with (of_Z 2).
    change (2 ^ 52) with 4503599627370496 in *.
    rewrite add_of_Z by (change (2 ^ 53) with 9007199254740992; lia).
    replace (m + m) with (m * 2) by ring.
    apply div_of_Z; [assumption|lia|].
    change (2 ^ 53) with 9007199254740992; lia.
  - intros Hz. destruct (H1' Hz) as [s1 ->]. destruct (H2' Hz) as [s2 ->].
    destruct s1, s2; eexists; reflexivity.
Qed.
End IntegerFloats.

(** ** The derivative of a linear signal *)

Module LinearClaims.
Import F64 IntegerFloats.
Local Open Scope Z_scope.




End LinearClaims.

(** ** The split sweep and the located values *)

Module TransferClaims.
Import F64 Np F64Facts NpFacts Transfer TransferFacts MethodFacts.
Local Open Scope string_scope.

Lemma legs_invariant (k : nat) (raw : list float) :
  (k < length raw)%nat -> sweep_invariant k (legs k raw).
Proof.
  intros Hk. unfold sweep_invariant. simpl.
  rewrite length_take, length_drop.
  repeat split; intros; try lia.
  - apply lookup_take_lt. lia.
  - apply lookup_drop.
Qed.

Section WithLog.
Variable log10 : float -> float.

(** C3. For every validated input, with [k] the lowest index at which
    [Vg] attains its maximum, the forward leg of each sweep is
    [raw[0..k]] and the reverse leg is [raw[k..end]], with the same [k] for
    [Vg] and [I]; the legs share exactly the sample at index [k], and
    [len(forward) + len(reverse) == len(raw) + 1]. *)
Theorem C3_sweep_split (x y : ndarray) (device_type : string) :
  wf x = true -> wf y = true -> validate x y = Ok tt ->
  exists t k,
    __init__ log10 x y device_type = Ok t /\
    is_argmax (data x) k /\
    Sequence.raw (Vg t) = data x /\ Sequence.raw (I t) = data y /\
    Sequence.forward (Vg t) = take (k + 1) (data x) /\
    Sequence.reverse (Vg t) = drop k (data x) /\
    Sequence.forward (I t) = take (k + 1) (data y) /\
    Sequence.reverse (I t) = drop k (data y) /\
    sweep_invariant k (Vg t) /\ sweep_invariant k (I t).
Proof.
  intros Hwx Hwy Hval.
  destruct (init_run log10 x y device_type Hwx Hwy Hval)
    as (t & k & Hrun & _ & Hmax & HV & HI & _).
  destruct (validate_Ok x y Hwx Hwy Hval) as (Hlen & _).
  pose proof (is_argmax_lt _ _ Hmax) as Hk.
  exists t, k. rewrite HV, HI.
  split; [assumption|]. split; [assumption|].
  do 6 (split; [reflexivity|]).
  split; apply legs_invariant; lia.
Qed.

Lemma locate_cases (i k : nat) :
  ((i < k)%nat -> locate i k = "forward") /\
  (i = k -> locate i k = "turning_point") /\
  ((k < i)%nat -> locate i k = "reverse").
Proof.
  unfold locate.
  destruct (Nat.ltb_spec i k), (Nat.eqb_spec i k);
    repeat split; intros; try reflexivity; lia.
Qed.

(** C5. The location tag of each located value (peak transconductance,
    peak |I|, minimum |I|, Von) compares the index of the extremum of the
    raw sequence with the turning index [k]: below gives "forward", equal
    gives "turning_point", above gives "reverse".  With [k = 0], index 0
    is tagged "turning_point", every later index "reverse", and "forward"
    does not occur. *)
Theorem C5_location_tags (x y : ndarray) (device_type : string) :
  wf x = true -> wf y = true -> validate x y = Ok tt ->
  exists t k,
    __init__ log10 x y device_type = Ok t /\
    argmax (Sequence.raw (Vg t)) = Ok k /\
    (exists i, argmax (Sequence.raw (gm t)) = Ok i /\
               Point.where_ (gm_max t) = locate i k) /\
    (exists i, argmax (absolute (Sequence.raw (I t))) = Ok i /\
               Point.where_ (I_max t) = locate i k) /\
    (exists i, argmin (absolute (Sequence.raw (I t))) = Ok i /\
               Point.where_ (I_min t) = locate i k) /\
    (exists d i,
       safe_diff (log_Id log10 (Sequence.raw (I t))) (Sequence.raw (Vg t))
         = Ok d /\
       select device_type d = Ok i /\
       Point.where_ (Von t) = locate i k) /\
    (forall i, ((i < k)%nat -> locate i k = "forward") /\
               (i = k -> locate i k = "turning_point") /\
               ((k < i)%nat -> locate i k = "reverse")) /\
    (k = 0%nat ->
     locate 0 k = "turning_point" /\
     (forall i, (0 < i)%nat -> locate i k = "reverse") /\
     (forall i, locate i k <> "forward")).
Proof.
  intros Hwx Hwy Hval.
  destruct (init_run log10 x y device_type Hwx Hwy Hval)
    as (t & k & Hrun & Hk & Hmax & HV & HI & Hgm & Hp1 & Hp2 & Hp3 & Hp4).
  pose proof (is_argmax_lt _ _ Hmax) as Hkn.
  assert (HkV : argmax (Sequence.raw (Vg t)) = Ok k) by (rewrite HV; exact Hk).
  exists t, k. split; [assumption|]. split; [assumption|].
  apply compute_gm_max_inv in Hp1.
  destruct Hp1 as (i1 & k1 & ? & ? & ? & Hi1 & Hk1 & _ & _ & _ & ->).
  apply compute_I_max_inv in Hp2.
  destruct Hp2 as (i2 & k2 & ? & ? & ? & Hi2 & Hk2 & _ & _ & _ & ->).
  apply compute_I_min_inv in Hp3.
  destruct Hp3 as (i3 & k3 & ? & ? & ? & Hi3 & Hk3 & _ & _ & _ & ->).
  apply compute_Von_inv in Hp4;
    [|rewrite HV; simpl; rewrite length_take; lia
     |rewrite HV; simpl; rewrite length_drop; lia].
  destruct Hp4 as (d & i4 & ? & ? & ? & ? & ? & ? & ? & k4
                   & Hd & Hi4 & _ & _ & _ & _ & _ & _ & _ & Hk4 & ->).
  assert (k1 = k) by congruence. assert (k2 = k) by congruence.
  assert (k3 = k) by congruence. assert (k4 = k) by congruence. subst.
  simpl.
  split; [eauto|]. split; [eauto|]. split; [eauto|]. split; [eauto|].
  split; [intros i; apply locate_cases|].
  intros ->. split; [reflexivity|]. split.
  - intros i Hi. apply locate_cases. assumption.
  - intros i. destruct i; discriminate.
Qed.

(** C9. The forward and reverse fields of each located value are
    extrema over that leg's own sequence: for peak transconductance the
    maximum of the derivative computed on the leg, for peak and minimum
    |I| the maximum and the minimum of the magnitudes of the leg's
    current.  (An extremum in the sense of the order wherever the
    sequence holds no NaN, which the magnitudes never do.) *)
Theorem C9_leg_extrema (x y : ndarray) (device_type : string) :
  wf x = true -> wf y = true -> validate x y = Ok tt ->
  exists t gf gb af ab nf nb,
    __init__ log10 x y device_type = Ok t /\
    safe_diff (Sequence.forward (I t)) (Sequence.forward (Vg t))
      = Ok (Sequence.forward (gm t)) /\
    safe_diff (Sequence.reverse (I t)) (Sequence.reverse (Vg t))
      = Ok (Sequence.reverse (gm t)) /\
    Point.forward (gm_max t) = Some gf /\
    amax (Sequence.forward (gm t)) = Ok gf /\
    (existsb is_nan (Sequence.forward (gm t)) = false ->
     is_max (Sequence.forward (gm t)) gf) /\
    Point.reverse (gm_max t) = Some gb /\
    amax (Sequence.reverse (gm t)) = Ok gb /\
    (existsb is_nan (Sequence.reverse (gm t)) = false ->
     is_max (Sequence.reverse (gm t)) gb) /\
    Point.forward (I_max t) = Some af /\
    amax (absolute (Sequence.forward (I t))) = Ok af /\
    is_max (absolute (Sequence.forward (I t))) af /\
    Point.reverse (I_max t) = Some ab /\
    amax (absolute (Sequence.reverse (I t))) = Ok ab /\
    is_max (absolute (Sequence.reverse (I t))) ab /\
    Point.forward (I_min t) = Some nf /\
    amin (absolute (Sequence.forward (I t))) = Ok nf /\
    is_min (absolute (Sequence.forward (I t))) nf /\
    Point.reverse (I_min t) = Some nb /\
    amin (absolute (Sequence.reverse (I t))) = Ok nb /\
    is_min (absolute (Sequence.reverse (I t))) nb.
Proof.
  intros Hwx Hwy Hval.
  destruct (init_run log10 x y device_type Hwx Hwy Hval)
    as (t & k & Hrun & Hk & Hmax & HV & HI & Hgm & Hp1 & Hp2 & Hp3 & _).
  destruct (validate_Ok x y Hwx Hwy Hval)
    as (_ & _ & _ & _ & _ & Hny & _ & _).
  apply existsb_is_nan_Forall in Hny.
  assert (Hf : Forall (fun w => is_nan w = false)
                 (absolute (Sequence.forward (I t)))).
  { rewrite HI. simpl. now apply Forall_not_nan_absolute, Forall_take. }
  assert (Hb : Forall (fun w => is_nan w = false)
                 (absolute (Sequence.reverse (I t)))).
  { rewrite HI. simpl. now apply Forall_not_nan_absolute, Forall_drop. }
  apply compute_gm_inv in Hgm. destruct Hgm as (_ & Hgf & Hgb).
  apply compute_gm_max_inv in Hp1.
  destruct Hp1 as (? & ? & ? & gf & gb & _ & _ & _ & Hmf & Hmb & E1).
  apply compute_I_max_inv in Hp2.
  destruct Hp2 as (? & ? & ? & af & ab & _ & _ & _ & Haf & Hab & E2).
  apply compute_I_min_inv in Hp3.
  destruct Hp3 as (? & ? & ? & nf & nb & _ & _ & _ & Hnf & Hnb & E3).
  exists t, gf, gb, af, ab, nf, nb. rewrite E1, E2, E3. simpl.
  split; [assumption|]. split; [assumption|]. split; [assumption|].
  split; [reflexivity|]. split; [assumption|].
  split; [intros Hn; apply amax_spec;
          [now apply existsb_is_nan_Forall|assumption]|].
  split; [reflexivity|]. split; [assumption|].
  split; [intros Hn; apply amax_spec;
          [now apply existsb_is_nan_Forall|assumption]|].
  split; [reflexivity|]. split; [assumption|].
  split; [now apply amax_spec|].
  split; [reflexivity|]. split; [assumption|].
  split; [now apply amax_spec|].
  split; [reflexivity|]. split; [assumption|].
  split; [now apply amin_spec|].
  split; [reflexivity|]. split; [assumption|].
  now apply amin_spec.
Qed.

(** C10. For every validated input both legs of both sweeps hold at
    least one sample, the turning sample [raw[k]], which ends the forward
    leg and starts the reverse leg; so the forward and reverse fields of
    Von are numbers, never [None]. *)
Theorem C10_legs_nonempty (x y : ndarray) (device_type : string) :
  wf x = true -> wf y = true -> validate x y = Ok tt ->
  exists t k v w vf vb,
    __init__ log10 x y device_type = Ok t /\
    argmax (Sequence.raw (Vg t)) = Ok k /\
    (0 < length (Sequence.forward (Vg t)))%nat /\
    (0 < length (Sequence.reverse (Vg t)))%nat /\
    (0 < length (Sequence.forward (I t)))%nat /\
    (0 < length (Sequence.reverse (I t)))%nat /\
    Sequence.raw (Vg t) !! k = Some v /\
    Sequence.forward (Vg t) !! k = Some v /\
    Sequence.reverse (Vg t) !! 0%nat = Some v /\
    Sequence.raw (I t) !! k = Some w /\
    Sequence.forward (I t) !! k = Some w /\
    Sequence.reverse (I t) !! 0%nat = Some w /\
    Point.forward (Von t) = Some vf /\
    Point.reverse (Von t) = Some vb.
Proof.
  intros Hwx Hwy Hval.
  destruct (init_run log10 x y device_type Hwx Hwy Hval)
    as (t & k & Hrun & Hk & Hmax & HV & HI & _ & _ & _ & _ & Hp4).
  destruct (validate_Ok x y Hwx Hwy Hval) as (Hlen & _).
  pose proof (is_argmax_lt _ _ Hmax) as Hkn.
  destruct (lookup_lt_is_Some_2 (data x) k) as [v Hv]; [lia|].
  destruct (lookup_lt_is_Some_2 (data y) k) as [w Hw]; [lia|].
  apply compute_Von_inv in Hp4;
    [|rewrite HV; simpl; rewrite length_take; lia
     |rewrite HV; simpl; rewrite length_drop; lia].
  destruct Hp4 as (? & ? & ? & ? & ? & vf & ? & ? & vb & ? & Hp4).
  destruct Hp4 as (_ & _ & _ & _ & _ & _ & _ & _ & _ & _ & E).
  exists t, k, v, w, vf, vb. rewrite E, HV, HI. simpl.
  rewrite !length_take, !length_drop, !lookup_drop, Nat.add_0_r.
  rewrite !lookup_take_lt by lia.
  repeat split; try assumption; lia.
Qed.

(** C7. [safe_diff] returns an array of the length of [f] (under its
    precondition [len(f) == len(x)], over any scalar type); for fewer than
    two samples it returns zeros of that length; and for every validated
    input of length at least two the raw transconductance is as long as
    the raw current. *)
Theorem C7_derivative_length :
  (forall (F : Type) (S : Scalar F) (f x : list F),
     length f = length x ->
     exists df, safe_diff f x = Ok df /\ length df = length f) /\
  (forall (F : Type) (S : Scalar F) (f x : list F),
     (length f < 2)%nat ->
     safe_diff f x = Ok (replicate (length f) zero)) /\
  (forall (x y : ndarray) (device_type : string),
     wf x = true -> wf y = true -> validate x y = Ok tt ->
     (2 <= length (data x))%nat ->
     exists t, __init__ log10 x y device_type = Ok t /\
       length (Sequence.raw (gm t)) = length (Sequence.raw (I t))).
Proof.
  split; [|split].
  - intros F S f x. apply safe_diff_total.
  - intros F S f x. apply safe_diff_short.
  - intros x y device_type Hwx Hwy Hval _.
    destruct (init_run log10 x y device_type Hwx Hwy Hval)
      as (t & k & Hrun & _ & _ & HV & HI & Hgm & _).
    destruct (validate_Ok x y Hwx Hwy Hval) as (Hlen & _).
    exists t. split; [assumption|].
    apply compute_gm_inv in Hgm. destruct Hgm as (Hr & _).
    destruct (safe_diff_total (Sequence.raw (I t)) (Sequence.raw (Vg t)))
      as (df & Hdf & Hl).
    { rewrite HV, HI. simpl. lia. }
    congruence.
Qed.

(** C6. Construction checks its two inputs before anything else, in
    this order: both one-dimensional, equal length, not empty, no NaN, no
    infinite value.  The first check that fails decides the error, which is
    all the caller gets: a [ValueError] whose message tells the condition,
    ShapeError for the first two, then EmptyInputError, NaNValueError and
    InfiniteValueError. *)
Theorem C6_validation_order (x y : ndarray) (device_type : string) :
  let fails (msg : string) (c : condition) :=
    validate x y = Raise (ValueError msg) /\
    __init__ log10 x y device_type = Raise (ValueError msg) /\
    condition_of (ValueError msg) = Some c in
  ((ndim x <> 1%nat \/ ndim y <> 1%nat) ->
   fails "x and y must be 1D arrays." ShapeError) /\
  (ndim x = 1%nat -> ndim y = 1%nat -> shape0 x <> shape0 y ->
   fails "x and y must have the same length." ShapeError) /\
  (ndim x = 1%nat -> ndim y = 1%nat -> shape0 x = shape0 y ->
   (size x = 0%nat \/ size y = 0%nat) ->
   fails "x and y must not be empty." EmptyInputError) /\
  (ndim x = 1%nat -> ndim y = 1%nat -> shape0 x = shape0 y ->
   size x <> 0%nat -> size y <> 0%nat ->
   (any_isnan x = true \/ any_isnan y = true) ->
   fails "x and y must not contain NaN values." NaNValueError) /\
  (ndim x = 1%nat -> ndim y = 1%nat -> shape0 x = shape0 y ->
   size x <> 0%nat -> size y <> 0%nat ->
   any_isnan x = false -> any_isnan y = false ->
   (any_isinf x = true \/ any_isinf y = true) ->
   fails "x and y must not contain infinite values." InfiniteValueError) /\
  (ndim x = 1%nat -> ndim y = 1%nat -> shape0 x = shape0 y ->
   size x <> 0%nat -> size y <> 0%nat ->
   any_isnan x = false -> any_isnan y = false ->
   any_isinf x = false -> any_isinf y = false ->
   validate x y = Ok tt).
Proof.
  cbv zeta.
  assert (Hfail : forall msg c,
            validate x y = Raise (ValueError msg) ->
            condition_of (ValueError msg) = Some c ->
            validate x y = Raise (ValueError msg) /\
            __init__ log10 x y device_type = Raise (ValueError msg) /\
            condition_of (ValueError msg) = Some c).
  { intros msg c Hv Hc. split; [assumption|]. split; [|assumption].
    unfold __init__. rewrite Hv. reflexivity. }
  split; [|split; [|split; [|split; [|split]]]].
  - intros Hd. apply Hfail; [|reflexivity]. unfold validate.
    destruct (Nat.eqb_spec (ndim x) 1), (Nat.eqb_spec (ndim y) 1);
      simpl; try reflexivity. destruct Hd; contradiction.
  - intros Hx Hy Hs. apply Hfail; [|reflexivity]. unfold validate.
    apply Nat.eqb_eq in Hx, Hy. apply Nat.eqb_neq in Hs.
    rewrite Hx, Hy, Hs. reflexivity.
  - intros Hx Hy Hs Hz. apply Hfail; [|reflexivity]. unfold validate.
    apply Nat.eqb_eq in Hx, Hy, Hs. rewrite Hx, Hy, Hs. simpl.
    destruct Hz as [Hz|Hz]; apply Nat.eqb_eq in Hz; rewrite Hz;
      [reflexivity|]. rewrite orb_true_r. reflexivity.
  - intros Hx Hy Hs Hzx Hzy Hn. apply Hfail; [|reflexivity].
    unfold validate.
    apply Nat.eqb_eq in Hx, Hy, Hs. apply Nat.eqb_neq in Hzx, Hzy.
    rewrite Hx, Hy, Hs, Hzx, Hzy. simpl.
    destruct Hn as [Hn|Hn]; rewrite Hn; [reflexivity|].
    rewrite orb_true_r. reflexivity.
  - intros Hx Hy Hs Hzx Hzy Hnx Hny Hi. apply Hfail; [|reflexivity].
    unfold validate.
    apply Nat.eqb_eq in Hx, Hy, Hs. apply Nat.eqb_neq in Hzx, Hzy.
    rewrite Hx, Hy, Hs, Hzx, Hzy, Hnx, Hny. simpl.
    destruct Hi as [Hi|Hi]; rewrite Hi; [reflexivity|].
    rewrite orb_true_r. reflexivity.
  - intros Hx Hy Hs Hzx Hzy Hnx Hny Hix Hiy. unfold validate.
    apply Nat.eqb_eq in Hx, Hy, Hs. apply Nat.eqb_neq in Hzx, Hzy.
    rewrite Hx, Hy, Hs, Hzx, Hzy, Hnx, Hny, Hix, Hiy. reflexivity.
Qed.

End WithLog.

Lemma C3_sweep_split_witness :
  wf Sample.x = true /\ wf Sample.y = true /\
  validate Sample.x Sample.y = Ok tt /\
  exists t k,
    __init__ Sample.ilog2 Sample.x Sample.y "N" = Ok t /\
    is_argmax (data Sample.x) k /\
    Sequence.raw (Vg t) = data Sample.x /\
    Sequence.raw (I t) = data Sample.y /\
    Sequence.forward (Vg t) = take (k + 1) (data Sample.x) /\
    Sequence.reverse (Vg t) = drop k (data Sample.x) /\
    Sequence.forward (I t) = take (k + 1) (data Sample.y) /\
    Sequence.reverse (I t) = drop k (data Sample.y) /\
    sweep_invariant k (Vg t) /\ sweep_invariant k (I t).
Proof.
  split; [reflexivity|]. split; [reflexivity|]. split; [reflexivity|].
  apply (C3_sweep_split Sample.ilog2 Sample.x Sample.y "N"); reflexivity.
Defined.

Lemma C5_location_tags_witness :
  wf Sample.x = true /\ wf Sample.y = true /\
  validate Sample.x Sample.y = Ok tt /\
  exists t k i,
    __init__ Sample.ilog2 Sample.x Sample.y "N" = Ok t /\
    argmax (Sequence.raw (Vg t)) = Ok k /\
    argmax (absolute (Sequence.raw (I t))) = Ok i /\
    Point.where_ (I_max t) = locate i k.
Proof.
  split; [reflexivity|]. split; [reflexivity|]. split; [reflexivity|].
  destruct (C5_location_tags Sample.ilog2 Sample.x Sample.y "N"
              eq_refl eq_refl eq_refl)
    as (t & k & Hrun & Hk & _ & (i & Hi & Hw) & _).
  exists t, k, i. split; [exact Hrun|]. split; [exact Hk|].
  split; [exact Hi|exact Hw].
Defined.

Lemma C9_leg_extrema_witness :
  wf Sample.x = true /\ wf Sample.y = true /\
  validate Sample.x Sample.y = Ok tt /\
  exists t af,
    __init__ Sample.ilog2 Sample.x Sample.y "N" = Ok t /\
    Point.forward (I_max t) = Some af /\
    is_max (absolute (Sequence.forward (I t))) af.
Proof.
  split; [reflexivity|]. split; [reflexivity|]. split; [reflexivity|].
  destruct (C9_leg_extrema Sample.ilog2 Sample.x Sample.y "N"
              eq_refl eq_refl eq_refl)
    as (t & gf & gb & af & ab & nf & nb & Hrun & _ & _ & _ & _ & _ & _ & _
        & _ & Haf & _ & Hmax & _).
  exists t, af. split; [exact Hrun|]. split; [exact Haf|exact Hmax].
Defined.

Lemma C10_legs_nonempty_witness :
  wf Sample.x = true /\ wf Sample.y = true /\
  validate Sample.x Sample.y = Ok tt /\
  exists t vf vb,
    __init__ Sample.ilog2 Sample.x Sample.y "N" = Ok t /\
    (0 < length (Sequence.forward (Vg t)))%nat /\
    (0 < length (Sequence.reverse (Vg t)))%nat /\
    Point.forward (Von t) = Some vf /\ Point.reverse (Von t) = Some vb.
Proof.
  split; [reflexivity|]. split; [reflexivity|]. split; [reflexivity|].
  destruct (C10_legs_nonempty Sample.ilog2 Sample.x Sample.y "N"
              eq_refl eq_refl eq_refl)
    as (t & k & v & w & vf & vb & Hrun & _ & Hf & Hb & _ & _ & _ & _ & _
        & _ & _ & _ & Hvf & Hvb).
  exists t, vf, vb. split; [exact Hrun|]. split; [exact Hf|].
  split; [exact Hb|]. split; [exact Hvf|exact Hvb].
Defined.

Lemma C7_derivative_length_witness :
  wf Sample.x = true /\ wf Sample.y = true /\
  validate Sample.x Sample.y = Ok tt /\
  (2 <= length (data Sample.x))%nat /\
  exists t,
    __init__ Sample.ilog2 Sample.x Sample.y "N" = Ok t /\
    length (Sequence.raw (gm t)) = length (Sequence.raw (I t)).
Proof.
  split; [reflexivity|]. split; [reflexivity|]. split; [reflexivity|].
  split; [simpl; lia|].
  apply (proj2 (proj2 (C7_derivative_length Sample.ilog2))
           Sample.x Sample.y "N"); try reflexivity.
  simpl. lia.
Defined.

Lemma C6_validation_order_witness :
  let x := array1 [S754_nan; F64.of_Z 1] in
  let y := array1 [F64.of_Z 0; S754_infinity false] in
  ndim x = 1%nat /\ ndim y = 1%nat /\ shape0 x = shape0 y /\
  size x <> 0%nat /\ size y <> 0%nat /\ any_isnan x = true /\
  __init__ Sample.ilog2 x y "N"
  = Raise (ValueError "x and y must not contain NaN values.").
Proof.
  cbv zeta.
  split; [reflexivity|]. split; [reflexivity|]. split; [reflexivity|].
  split; [discriminate|]. split; [discriminate|]. split; [reflexivity|].
  destruct (C6_validation_order Sample.ilog2
              (array1 [S754_nan; F64.of_Z 1])
              (array1 [F64.of_Z 0; S754_infinity false]) "N")
    as (_ & _ & _ & Hnan & _).
  destruct Hnan as (_ & Hrun & _);
    [reflexivity | reflexivity | reflexivity | discriminate | discriminate
    | left; reflexivity | exact Hrun].
Defined.

End TransferClaims.

(** ** The threshold voltage *)

Module VonClaims.
Import F64 Np F64Facts NpFacts Transfer TransferFacts MethodFacts VonFacts.
Local Open Scope string_scope.

Lemma safe_diff_Ok_length (f x df : list float) :
  length f = length x -> safe_diff f x = Ok df -> length df = length f.
Proof.
  intros Hl Hrun. destruct (safe_diff_total f x Hl) as (df' & Hrun' & Hl').
  congruence.
Qed.

Lemma select_spec (device_type : string) (d : list float) (idx : nat) :
  (0 < length d)%nat -> select device_type d = Ok idx ->
  existsb is_nan d = false ->
  if String.eqb (upper device_type) "N" then is_argmax d idx
  else is_argmin d idx.
Proof.
  intros Hd Hs Hn. unfold select in Hs.
  assert (Hne : d <> []) by (intros ->; simpl in Hd; lia).
  destruct (String.eqb _ _).
  - destruct (argmax_spec d Hne Hn) as (k & Hk & Hmax). congruence.
  - destruct (argmin_spec d Hne Hn) as (k & Hk & Hmin). congruence.
Qed.

Section WithLog.
Variable log10 : float -> float.

Lemma Von_of_intro (device_type : string) (v i d : list float)
    (idx : nat) (w : float) :
  length i = length v -> (0 < length v)%nat ->
  safe_diff (log_Id log10 i) v = Ok d ->
  select device_type d = Ok idx -> v !! idx = Some w ->
  Von_of log10 device_type v i w.
Proof.
  intros Hl Hv Hd Hs Hw. exists d, idx.
  repeat (split; [assumption|]).
  apply select_spec; [|assumption].
  rewrite (safe_diff_Ok_length _ _ _ (eq_trans (length_log_Id log10 i) Hl) Hd).
  rewrite length_log_Id. lia.
Qed.

(** C4. Von is computed for raw, forward and reverse independently:
    [log10] of |I| floored at [1e-12], the derivative of that against the
    same leg of [Vg], the index of the maximum slope for polarity N and of
    the minimum otherwise, and the value of that leg of [Vg] at the index.
    A current that is zero throughout is processed as [log10(1e-12)]
    throughout; construction returns, every Von is a finite element of
    [Vg], and with a finite [log10(1e-12)] it is the first sample of its
    leg. *)
Theorem C4_threshold_voltage (x y : ndarray) (device_type : string) :
  wf x = true -> wf y = true -> validate x y = Ok tt ->
  exists t k vf vb,
    __init__ log10 x y device_type = Ok t /\
    argmax (Sequence.raw (Vg t)) = Ok k /\
    Von_of log10 device_type (Sequence.raw (Vg t)) (Sequence.raw (I t))
      (Point.raw (Von t)) /\
    Point.forward (Von t) = Some vf /\
    Von_of log10 device_type (Sequence.forward (Vg t))
      (Sequence.forward (I t)) vf /\
    Point.reverse (Von t) = Some vb /\
    Von_of log10 device_type (Sequence.reverse (Vg t))
      (Sequence.reverse (I t)) vb /\
    is_finite (Point.raw (Von t)) = true /\
    is_finite vf = true /\ is_finite vb = true /\
    (forall a i v, a !! i = Some v ->
       log_Id log10 a !! i = Some (log10 (maximum (SFabs v) eps64))) /\
    (forall v, is_nan v = false ->
       maximum (SFabs v) eps64
       = if ltb (SFabs v) eps64 then eps64 else SFabs v) /\
    (forall d, select "N" d = argmax d) /\
    (forall d, select "P" d = argmin d) /\
    (Forall (fun v => is_zero v = true) (data y) ->
     log_Id log10 (Sequence.raw (I t))
       = replicate (length (data y)) (log10 eps64) /\
     (is_finite (log10 eps64) = true ->
      data x !! 0%nat = Some (Point.raw (Von t)) /\
      data x !! 0%nat = Some vf /\
      data x !! k = Some vb)).
Proof.
  intros Hwx Hwy Hval.
  destruct (init_run log10 x y device_type Hwx Hwy Hval)
    as (t & k & Hrun & Hk & Hmax & HV & HI & _ & _ & _ & _ & Hp4).
  destruct (validate_Ok x y Hwx Hwy Hval)
    as (Hlen & Hpos & _ & _ & Hnx & _ & Hix & _).
  pose proof (is_argmax_lt _ _ Hmax) as Hkn.
  assert (Hlf : length (Sequence.forward (I t))
                = length (Sequence.forward (Vg t)))
    by (rewrite HV, HI; simpl; rewrite !length_take; lia).
  assert (Hlb : length (Sequence.reverse (I t))
                = length (Sequence.reverse (Vg t)))
    by (rewrite HV, HI; simpl; rewrite !length_drop; lia).
  assert (Hlr : length (Sequence.raw (I t)) = length (Sequence.raw (Vg t)))
    by (rewrite HV, HI; simpl; lia).
  assert (Hpf : (0 < length (Sequence.forward (Vg t)))%nat)
    by (rewrite HV; simpl; rewrite length_take; lia).
  assert (Hpb : (0 < length (Sequence.reverse (Vg t)))%nat)
    by (rewrite HV; simpl; rewrite length_drop; lia).
  assert (Hpr : (0 < length (Sequence.raw (Vg t)))%nat)
    by (rewrite HV; simpl; lia).
  apply compute_Von_inv in Hp4; [|assumption..].
  destruct Hp4 as (dr & ir & wr & df & jf & vf & db & jb & vb & k'
                   & Hdr & Hsr & Hwr & Hdf & Hsf & Hwf & Hdb & Hsb & Hwb
                   & Hk' & E).
  exists t, k, vf, vb. rewrite E. simpl.
  split; [assumption|].
  split; [rewrite HV; exact Hk|].
  split; [eapply Von_of_intro; eassumption|].
  split; [reflexivity|].
  split; [eapply Von_of_intro; eassumption|].
  split; [reflexivity|].
  split; [eapply Von_of_intro; eassumption|].
  assert (Hwf' : data x !! jf = Some vf).
  { rewrite HV in Hwf. simpl in Hwf.
    apply lookup_take_Some in Hwf. tauto. }
  assert (Hwb' : data x !! (k + jb)%nat = Some vb).
  { rewrite HV in Hwb. simpl in Hwb. rewrite lookup_drop in Hwb. exact Hwb. }
  assert (Hwr' : data x !! ir = Some wr) by (rewrite HV in Hwr; exact Hwr).
  split; [eapply lookup_finite; eassumption|].
  split; [eapply lookup_finite; eassumption|].
  split; [eapply lookup_finite; eassumption|].
  split; [apply log_Id_lookup|].
  split; [apply floor_cases|].
  split; [intros d; reflexivity|].
  split; [intros d; reflexivity|].
  intros Hz.
  split; [rewrite HI; simpl; now apply log_Id_zeros|].
  intros HL.
  assert (Hzr : Forall (fun v => is_zero v = true) (Sequence.raw (I t)))
    by (rewrite HI; exact Hz).
  assert (Hzf : Forall (fun v => is_zero v = true) (Sequence.forward (I t)))
    by (rewrite HI; simpl; now apply Forall_take).
  assert (Hzb : Forall (fun v => is_zero v = true) (Sequence.reverse (I t)))
    by (rewrite HI; simpl; now apply Forall_drop).
  destruct (Von_leg_zeros log10 device_type _ _ _ _ Hlr Hpr Hzr HL Hdr Hsr)
    as [_ ->].
  destruct (Von_leg_zeros log10 device_type _ _ _ _ Hlf Hpf Hzf HL Hdf Hsf)
    as [_ ->].
  destruct (Von_leg_zeros log10 device_type _ _ _ _ Hlb Hpb Hzb HL Hdb Hsb)
    as [_ ->].
  rewrite Nat.add_0_r in Hwb'. auto.
Qed.

End WithLog.

Lemma C4_threshold_voltage_witness :
  wf Sample.x = true /\ wf Sample.y = true /\
  validate Sample.x Sample.y = Ok tt /\
  exists t vf vb,
    __init__ Sample.ilog2 Sample.x Sample.y "N" = Ok t /\
    Von_of Sample.ilog2 "N" (Sequence.raw (Vg t)) (Sequence.raw (I t))
      (Point.raw (Von t)) /\
    Point.forward (Von t) = Some vf /\
    Von_of Sample.ilog2 "N" (Sequence.forward (Vg t))
      (Sequence.forward (I t)) vf /\
    Point.reverse (Von t) = Some vb /\
    Von_of Sample.ilog2 "N" (Sequence.reverse (Vg t))
      (Sequence.reverse (I t)) vb.
Proof.
  split; [reflexivity|]. split; [reflexivity|]. split; [reflexivity|].
  destruct (C4_threshold_voltage Sample.ilog2 Sample.x Sample.y "N"
              eq_refl eq_refl eq_refl)
    as (t & k & vf & vb & Hrun & _ & Hr & Hf & Hvf & Hb & Hvb & _).
  exists t, vf, vb. split; [exact Hrun|]. split; [exact Hr|].
  split; [exact Hf|]. split; [exact Hvf|]. split; [exact Hb|exact Hvb].
Defined.

End VonClaims.

(** * Further properties of the code *)

(** ** [safe_diff] outside its precondition *)

Section SafeDiffLengths.
Context {F : Type} `{Scalar F}.

Lemma getitem_out_of_range {A} (l : list A) (i : nat) :
  (length l <= i)%nat ->
  getitem l (Z.of_nat i) = Raise (IndexError "index out of bounds").
Proof.
  intros Hi. unfold getitem.
  destruct (Z.ltb_spec (Z.of_nat i) 0) as [Hn|_]; [lia|].
  destruct (Z.ltb_spec (Z.of_nat i) 0) as [Hn|_]; [lia|].
  destruct (Z.leb_spec (Z.of_nat (length l)) (Z.of_nat i)) as [_|Hn]; [|lia].
  reflexivity.
Qed.

(** A turn of the loop that is not the last one reads [x] up to index
    [i + 1] only. *)
Lemma safe_diff_body_inner (f x : list F) (n i : nat) :
  length f = n -> (i + 1 < n)%nat -> (i + 1 < length x)%nat ->
  safe_diff_body f x n i = Ok (stencil f x n i).
Proof.
  intros Hf Hi Hx. unfold safe_diff_body, stencil.
  destruct (Nat.eqb_spec i 0) as [->|Hi0].
  - change 1%Z with (Z.of_nat 1); change 0%Z with (Z.of_nat 0).
    rewrite (getitem_nat x 1 (item x 1)), (getitem_nat x 0 (item x 0)),
      (getitem_nat f 1 (item f 1)), (getitem_nat f 0 (item f 0))
      by (apply lookup_item; lia).
    reflexivity.
  - destruct (Nat.eqb_spec i (n - 1)) as [->|Hil]; [lia|].
    rewrite (getitem_nat x i (item x i)),
      (getitem_pred x i (item x (i - 1))),
      (getitem_succ x i (item x (i + 1))),
      (getitem_nat f i (item f i)),
      (getitem_pred f i (item f (i - 1))),
      (getitem_succ f i (item f (i + 1)));
      try lia; try (apply lookup_item; lia).
    reflexivity.
Qed.

(** The last turn reads [x] from its own end. *)
Lemma safe_diff_body_last (f x : list F) (n : nat) :
  length f = n -> (2 <= n)%nat -> (2 <= length x)%nat ->
  safe_diff_body f x n (n - 1)
  = Ok (div (sub (item f (n - 1)) (item f (n - 2)))
            (clamp (sub (item x (length x - 1)) (item x (length x - 2))))).
Proof.
  intros Hf Hn Hx. unfold safe_diff_body.
  destruct (Nat.eqb_spec (n - 1) 0) as [E|_]; [lia|].
  rewrite Nat.eqb_refl.
  change (-1)%Z with (- Z.of_nat 1)%Z; change (-2)%Z with (- Z.of_nat 2)%Z.
  rewrite (getitem_from_end x 1 (item x (length x - 1))),
    (getitem_from_end x 2 (item x (length x - 2))),
    (getitem_from_end f 1 (item f (n - 1))),
    (getitem_from_end f 2 (item f (n - 2)));
    try lia; try (rewrite ?Hf; apply lookup_item; lia).
  reflexivity.
Qed.

(** The loop over [a, a + k) when every turn returns. *)
Lemma safe_diff_loop_values (f x : list F) (n : nat) (g : nat -> F) :
  forall (k a : nat) (df : list F),
    length df = n -> (a + k <= n)%nat ->
    (forall i, (a <= i < a + k)%nat -> safe_diff_body f x n i = Ok (g i)) ->
    exists df', safe_diff_loop f x n (seq a k) df = Ok df' /\
      length df' = n /\
      forall i, (i < n)%nat ->
        df' !! i = if ((a <=? i) && (i <? a + k))%nat
                   then Some (g i) else df !! i.
Proof.
  induction k as [|k IH]; intros a df Hdf Hak Hbody.
  - exists df. simpl. repeat split; [assumption|].
    intros i Hi. destruct (Nat.leb_spec a i), (Nat.ltb_spec i (a + 0));
      simpl; try reflexivity; lia.
  - simpl. rewrite Hbody by lia. simpl.
    unfold setitem. destruct (Nat.ltb_spec a (length df)) as [_|Hbad]; [|lia].
    simpl.
    destruct (IH (S a) (<[a:=g a]> df)) as (df' & Hrun & Hlen & Hat).
    { rewrite length_insert. assumption. }
    { lia. }
    { intros i Hi. apply Hbody. lia. }
    exists df'. repeat split; [assumption..|].
    intros i Hi. rewrite (Hat i Hi).
    destruct (Nat.eq_dec a i) as [->|Hne].
    + rewrite list_lookup_insert_eq by lia.
      destruct (Nat.leb_spec (S i) i), (Nat.leb_spec i i),
        (Nat.ltb_spec i (S i + k)), (Nat.ltb_spec i (i + S k));
        simpl; try reflexivity; lia.
    + rewrite list_lookup_insert_ne by assumption.
      destruct (Nat.leb_spec (S a) i), (Nat.leb_spec a i),
        (Nat.ltb_spec i (S a + k)), (Nat.ltb_spec i (a + S k));
        simpl; try reflexivity; lia.
Qed.

(** The loop stops with IndexError at the first turn [len(x) - 1] that
    needs [x[len(x)]]. *)
Lemma safe_diff_loop_short_x (f x : list F) (n : nat) :
  length f = n -> (2 <= length x)%nat -> (length x < n)%nat ->
  forall (k a : nat) (df : list F),
    length df = n -> (a <= length x - 1)%nat ->
    (length x - 1 < a + k)%nat -> (a + k <= n)%nat ->
    safe_diff_loop f x n (seq a k) df
    = Raise (IndexError "index out of bounds").
Proof.
  intros Hf Hx Hxn. induction k as [|k IH]; intros a df Hdf Ha Hk Hn.
  - lia.
  - simpl. destruct (Nat.eq_dec a (length x - 1)) as [->|Hne].
    + unfold safe_diff_body.
      destruct (Nat.eqb_spec (length x - 1) 0) as [E|_]; [lia|].
      destruct (Nat.eqb_spec (length x - 1) (n - 1)) as [E|_]; [lia|].
      rewrite (getitem_nat x (length x - 1) (item x (length x - 1)))
        by (apply lookup_item; lia).
      rewrite (getitem_pred x (length x - 1) (item x (length x - 1 - 1)))
        by (try lia; apply lookup_item; lia).
      replace (Z.of_nat (length x - 1) + 1)%Z with (Z.of_nat (length x))
        by lia.
      rewrite (getitem_out_of_range x (length x)) by lia.
      reflexivity.
    + rewrite safe_diff_body_inner by (assumption || lia). simpl.
      unfold setitem.
      destruct (Nat.ltb_spec a (length df)) as [_|Hbad]; [|lia].
      simpl. apply IH; try lia. rewrite length_insert. assumption.
Qed.

(** X1.  When [x] is shorter than [f] (and [f] has at least two
    samples), [safe_diff] raises IndexError and returns no array. *)
Theorem safe_diff_shorter_x_raises (f x : list F) :
  (2 <= length f)%nat -> (length x < length f)%nat ->
  exists msg, safe_diff f x = Raise (IndexError msg).
Proof.
  intros Hn Hx. eexists. unfold safe_diff.
  destruct (Nat.ltb_spec (length f) 2) as [Hlt|_]; [lia|].
  destruct (Nat.lt_ge_cases (length x) 2) as [Hs|Hl].
  - destruct (length f) as [|n] eqn:En; [lia|]. simpl.
    unfold safe_diff_body. simpl.
    change 1%Z with (Z.of_nat 1).
    rewrite (getitem_out_of_range x 1) by lia. reflexivity.
  - apply (safe_diff_loop_short_x f x (length f) eq_refl Hl Hx);
      try lia. unfold zeros_like. apply length_replicate.
Qed.

(** X2.  When [x] is at least as long as [f], [safe_diff] returns
    without an error even if the lengths differ: every sample but the last
    is computed from the first [len(f)] elements of [x] as usual, while
    the last sample divides [f[-1] - f[-2]] by the clamped spacing of the
    last two elements of [x] itself. *)
Theorem safe_diff_longer_x (f x : list F) :
  (2 <= length f)%nat -> (length f <= length x)%nat ->
  exists df, safe_diff f x = Ok df /\ length df = length f /\
    (forall i, (i + 1 < length f)%nat ->
       df !! i = Some (stencil f x (length f) i)) /\
    df !! (length f - 1)%nat =
      Some (div (sub (item f (length f - 1)) (item f (length f - 2)))
                (clamp (sub (item x (length x - 1))
                            (item x (length x - 2))))).
Proof.
  intros Hn Hx. unfold safe_diff.
  destruct (Nat.ltb_spec (length f) 2) as [Hlt|_]; [lia|].
  set (n := length f) in *.
  set (last := div (sub (item f (n - 1)) (item f (n - 2)))
                 (clamp (sub (item x (length x - 1))
                             (item x (length x - 2))))).
  destruct (safe_diff_loop_values f x n
              (fun i => if (i =? n - 1)%nat then last else stencil f x n i)
              n 0%nat (zeros_like f))
    as (df & Hrun & Hl & Hat).
  { unfold zeros_like. apply length_replicate. }
  { lia. }
  { intros i Hi. destruct (Nat.eqb_spec i (n - 1)) as [->|Hne].
    - apply safe_diff_body_last; [reflexivity|lia|lia].
    - apply safe_diff_body_inner; [reflexivity|lia|lia]. }
  exists df. split; [assumption|]. split; [assumption|]. split.
  - intros i Hi. rewrite (Hat i) by lia.
    destruct (Nat.leb_spec 0 i), (Nat.ltb_spec i (0 + n)); try lia. simpl.
    destruct (Nat.eqb_spec i (n - 1)); [lia|reflexivity].
  - rewrite (Hat (n - 1)%nat) by lia.
    destruct (Nat.leb_spec 0 (n - 1)), (Nat.ltb_spec (n - 1) (0 + n));
      try lia. simpl.
    rewrite Nat.eqb_refl. reflexivity.
Qed.

End SafeDiffLengths.

Lemma safe_diff_shorter_x_raises_witness :
  let f := map F64.of_Z [0; 1; 4]%Z in
  let x := map F64.of_Z [0; 1]%Z in
  (2 <= length f)%nat /\ (length x < length f)%nat /\
  exists msg, safe_diff f x = Raise (IndexError msg).
Proof.
  cbv zeta. split; [simpl; lia|]. split; [simpl; lia|].
  apply (safe_diff_shorter_x_raises
           (map F64.of_Z [0; 1; 4]%Z) (map F64.of_Z [0; 1]%Z));
    simpl; lia.
Defined.

Lemma safe_diff_longer_x_witness :
  let f := map F64.of_Z [0; 1]%Z in
  let x := map F64.of_Z [0; 1; 5]%Z in
  (2 <= length f)%nat /\ (length f <= length x)%nat /\
  exists df, safe_diff f x = Ok df /\ length df = length f /\
    df !! 1%nat =
      Some (div (sub (item f 1) (item f 0))
                (clamp (sub (item x 2) (item x 1)))).
Proof.
  cbv zeta. split; [simpl; lia|]. split; [simpl; lia|].
  destruct (safe_diff_longer_x
              (map F64.of_Z [0; 1]%Z) (map F64.of_Z [0; 1; 5]%Z))
    as (df & Hrun & Hl & _ & Hlast); [simpl; lia|simpl; lia|].
  exists df. split; [exact Hrun|]. split; [exact Hl|exact Hlast].
Defined.

(** ** Degenerate spacings and flat signals, over binary64 *)

Module DerivativeEdges.
Import F64 F64Facts VonFacts.

(** X3.  The denominator that [safe_diff] divides by is never zero and
    never NaN, whatever the spacing; the spacing of a repeated finite
    sample, [x[i+1] == x[i]], is replaced by exactly [1e-12]. *)
Theorem clamp_never_zero_or_nan (dx : float) :
  is_zero (clamp dx) = false /\ is_nan (clamp dx) = false /\
  (forall a : float, is_finite a = true -> clamp (sub a a) = eps).
Proof.
  pose proof (clamp_shape dx) as Hc.
  split; [|split].
  - destruct (clamp dx); simpl in *; try contradiction; reflexivity.
  - destruct (clamp dx); simpl in *; try contradiction; reflexivity.
  - intros a Ha. rewrite (sub_self a Ha). reflexivity.
Qed.

(** X4.  The derivative of a signal that holds one finite value
    throughout is zero at every index, for any [x] of the same length:
    also where [x] repeats a sample or is not finite. *)
Theorem safe_diff_flat_signal (f x : list float) (c : float) :
  length f = length x -> is_finite c = true ->
  Forall (fun v => v = c) f ->
  exists df, safe_diff f x = Ok df /\ length df = length f /\
    Forall (fun v => is_zero v = true) df.
Proof.
  intros Hl Hc Hf.
  assert (E : f = replicate (length x) c).
  { rewrite <- Hl. clear Hl. induction Hf as [|v f -> _ IH]; [reflexivity|].
    simpl. now rewrite <- IH. }
  destruct (safe_diff_const_zero x c Hc) as (df & Hrun & Hdl & Hz).
  exists df. rewrite E at 1. split; [assumption|]. split; [lia|assumption].
Qed.

Lemma safe_diff_flat_signal_witness :
  let f := map of_Z [7; 7; 7]%Z in
  let x := [of_Z 1; of_Z 1; S754_infinity false] in
  length f = length x /\ is_finite (of_Z 7) = true /\
  Forall (fun v => v = of_Z 7) f /\
  exists df, safe_diff f x = Ok df /\ length df = length f /\
    Forall (fun v => is_zero v = true) df.
Proof.
  cbv zeta. split; [reflexivity|]. split; [reflexivity|].
  split; [repeat constructor|].
  apply (safe_diff_flat_signal (map of_Z [7; 7; 7]%Z)
           [of_Z 1; of_Z 1; S754_infinity false] (of_Z 7));
    [reflexivity | reflexivity | repeat constructor].
Defined.

End DerivativeEdges.

(** ** The transconductance of the legs against that of the whole sweep *)

Section StencilOnLegs.
Context {F : Type} `{Scalar F}.

Lemma item_take (l : list F) (n j : nat) :
  (j < n)%nat -> item (take n l) j = item l j.
Proof.
  intros Hj. unfold item. rewrite !nth_lookup, lookup_take_lt by lia.
  reflexivity.
Qed.

Lemma item_drop (l : list F) (k j : nat) :
  item (drop k l) j = item l (k + j).
Proof. unfold item. rewrite !nth_lookup, lookup_drop. reflexivity. Qed.

Lemma stencil_take (f x : list F) (n k i : nat) :
  (i < k)%nat -> (k < n)%nat ->
  stencil (take (k + 1) f) (take (k + 1) x) (k + 1) i = stencil f x n i.
Proof.
  intros Hi Hk. unfold stencil, forward_diff, backward_diff.
  destruct (Nat.eqb_spec i 0) as [->|Hi0].
  - rewrite !item_take by lia. reflexivity.
  - destruct (Nat.eqb_spec i (k + 1 - 1)) as [E|_]; [lia|].
    destruct (Nat.eqb_spec i (n - 1)) as [E|_]; [lia|].
    rewrite !item_take by lia. reflexivity.
Qed.

Lemma stencil_take_last (f x : list F) (k : nat) :
  (0 < k)%nat ->
  stencil (take (k + 1) f) (take (k + 1) x) (k + 1) k = backward_diff f x k.
Proof.
  intros Hk. unfold stencil, backward_diff.
  destruct (Nat.eqb_spec k 0) as [E|_]; [lia|].
  destruct (Nat.eqb_spec k (k + 1 - 1)) as [_|E]; [|lia].
  replace (k + 1 - 1)%nat with k by lia.
  rewrite !item_take by lia. reflexivity.
Qed.

Lemma stencil_drop (f x : list F) (n k j : nat) :
  (0 < j)%nat -> (k + j < n)%nat ->
  stencil (drop k f) (drop k x) (n - k) j = stencil f x n (k + j).
Proof.
  intros Hj Hn. unfold stencil, forward_diff, backward_diff.
  destruct (Nat.eqb_spec j 0) as [E|_]; [lia|].
  destruct (Nat.eqb_spec (k + j) 0) as [E|_]; [lia|].
  rewrite !item_drop.
  replace (k + (n - k - 1))%nat with (n - 1)%nat by lia.
  replace (k + (n - k - 1 - 1))%nat with (n - 1 - 1)%nat by lia.
  replace (k + (j + 1))%nat with (k + j + 1)%nat by lia.
  replace (k + (j - 1))%nat with (k + j - 1)%nat by lia.
  destruct (Nat.eqb_spec j (n - k - 1)), (Nat.eqb_spec (k + j) (n - 1));
    try lia; reflexivity.
Qed.

Lemma stencil_drop_first (f x : list F) (n k : nat) :
  (k + 1 < n)%nat ->
  stencil (drop k f) (drop k x) (n - k) 0 = forward_diff f x k.
Proof.
  intros Hn. unfold stencil, forward_diff. simpl.
  rewrite !item_drop.
  replace (k + 1)%nat with (k + 1)%nat by lia.
  rewrite Nat.add_0_r. reflexivity.
Qed.

End StencilOnLegs.

Module LegsAgainstRaw.
Import F64 Np F64Facts NpFacts Transfer TransferFacts MethodFacts.

Section WithLog.
Variable log10 : float -> float.

(** X6.  Away from the turning index [k] the transconductance of a leg
    is that of the whole sweep: [gm.forward[i] == gm.raw[i]] for every
    [i < k], and [gm.reverse[j] == gm.raw[k + j]] for every [j >= 1]. *)
Theorem gm_legs_agree_with_raw (x y : ndarray) (device_type : string) :
  wf x = true -> wf y = true -> validate x y = Ok tt ->
  exists t k,
    __init__ log10 x y device_type = Ok t /\
    argmax (data x) = Ok k /\
    (forall i, (i < k)%nat ->
       Sequence.forward (gm t) !! i = Sequence.raw (gm t) !! i) /\
    (forall j, (1 <= j)%nat -> (k + j < length (Sequence.raw (gm t)))%nat ->
       Sequence.reverse (gm t) !! j = Sequence.raw (gm t) !! (k + j)%nat).
Proof.
  intros Hwx Hwy Hval.
  destruct (init_run log10 x y device_type Hwx Hwy Hval)
    as (t & k & Hrun & Hk & Hmax & HV & HI & Hgm & _).
  destruct (validate_Ok x y Hwx Hwy Hval) as (Hlen & _).
  pose proof (is_argmax_lt _ _ Hmax) as Hkn.
  apply compute_gm_inv in Hgm. rewrite HV, HI in Hgm. simpl in Hgm.
  destruct Hgm as (Hr & Hf & Hb).
  exists t, k. split; [assumption|]. split; [exact Hk|].
  assert (Hlr : length (Sequence.raw (gm t)) = length (data y)).
  { destruct (safe_diff_total (data y) (data x)) as (d & Hd & Hdl); [lia|].
    congruence. }
  split.
  - intros i Hi.
    destruct (safe_diff_stencil (data y) (data x)) as (dr & Hdr & _ & Hatr);
      [lia|lia|].
    destruct (safe_diff_stencil (take (k + 1) (data y)) (take (k + 1) (data x)))
      as (df & Hdf & _ & Hatf);
      [rewrite !length_take; lia|rewrite length_take; lia|].
    assert (dr = Sequence.raw (gm t)) by congruence.
    assert (df = Sequence.forward (gm t)) by congruence. subst dr df.
    rewrite Hatf by (rewrite length_take; lia). rewrite Hatr by lia.
    rewrite length_take.
    replace (Nat.min (k + 1) (length (data y))) with (k + 1)%nat by lia.
    f_equal. apply stencil_take; lia.
  - intros j Hj Hjn. rewrite Hlr in Hjn.
    destruct (safe_diff_stencil (data y) (data x)) as (dr & Hdr & _ & Hatr);
      [lia|lia|].
    destruct (safe_diff_stencil (drop k (data y)) (drop k (data x)))
      as (db & Hdb & _ & Hatb);
      [rewrite !length_drop; lia|rewrite length_drop; lia|].
    assert (dr = Sequence.raw (gm t)) by congruence.
    assert (db = Sequence.reverse (gm t)) by congruence. subst dr db.
    rewrite Hatb by (rewrite length_drop; lia). rewrite Hatr by lia.
    rewrite length_drop. f_equal. apply stencil_drop; lia.
Qed.

(** X7.  At a turning index [k] that is neither the first nor the
    last sample, the raw transconductance is the mean of the two leg
    values that meet there: [gm.raw[k] == (gm.forward[k] +
    gm.reverse[0]) / 2], with [gm.forward[k]] the backward difference and
    [gm.reverse[0]] the forward difference at [k]. *)
Theorem gm_turning_point_mean (x y : ndarray) (device_type : string) :
  wf x = true -> wf y = true -> validate x y = Ok tt ->
  exists t k,
    __init__ log10 x y device_type = Ok t /\
    argmax (data x) = Ok k /\
    ((0 < k)%nat -> (k + 1 < length (data x))%nat ->
     exists a b,
       Sequence.forward (gm t) !! k = Some a /\
       a = backward_diff (data y) (data x) k /\
       Sequence.reverse (gm t) !! 0%nat = Some b /\
       b = forward_diff (data y) (data x) k /\
       Sequence.raw (gm t) !! k = Some (div (add a b) two)).
Proof.
  intros Hwx Hwy Hval.
  destruct (init_run log10 x y device_type Hwx Hwy Hval)
    as (t & k & Hrun & Hk & Hmax & HV & HI & Hgm & _).
  destruct (validate_Ok x y Hwx Hwy Hval) as (Hlen & _).
  apply compute_gm_inv in Hgm. rewrite HV, HI in Hgm. simpl in Hgm.
  destruct Hgm as (Hr & Hf & Hb).
  exists t, k. split; [assumption|]. split; [exact Hk|].
  intros Hk0 Hkn.
  destruct (safe_diff_stencil (data y) (data x)) as (dr & Hdr & _ & Hatr);
    [lia|lia|].
  destruct (safe_diff_stencil (take (k + 1) (data y)) (take (k + 1) (data x)))
    as (df & Hdf & _ & Hatf);
    [rewrite !length_take; lia|rewrite length_take; lia|].
  destruct (safe_diff_stencil (drop k (data y)) (drop k (data x)))
    as (db & Hdb & _ & Hatb);
    [rewrite !length_drop; lia|rewrite length_drop; lia|].
  assert (dr = Sequence.raw (gm t)) by congruence.
  assert (df = Sequence.forward (gm t)) by congruence.
  assert (db = Sequence.reverse (gm t)) by congruence. subst dr df db.
  exists (backward_diff (data y) (data x) k), (forward_diff (data y) (data x) k).
  split; [|split; [reflexivity|split; [|split; [reflexivity|]]]].
  - rewrite Hatf by (rewrite length_take; lia). rewrite length_take.
    replace (Nat.min (k + 1) (length (data y))) with (k + 1)%nat by lia.
    f_equal. apply stencil_take_last. assumption.
  - rewrite Hatb by (rewrite length_drop; lia). rewrite length_drop.
    f_equal. apply stencil_drop_first. lia.
  - rewrite Hatr by lia. f_equal. unfold stencil.
    destruct (Nat.eqb_spec k 0) as [E|_]; [lia|].
    destruct (Nat.eqb_spec k (length (data y) - 1)) as [E|_]; [lia|].
    reflexivity.
Qed.

End WithLog.

Lemma gm_legs_agree_with_raw_witness :
  wf Sample.x = true /\ wf Sample.y = true /\
  validate Sample.x Sample.y = Ok tt /\
  exists t,
    __init__ Sample.ilog2 Sample.x Sample.y "N" = Ok t /\
    (forall i, (i < 3)%nat ->
       Sequence.forward (gm t) !! i = Sequence.raw (gm t) !! i).
Proof.
  split; [reflexivity|]. split; [reflexivity|]. split; [reflexivity|].
  destruct (gm_legs_agree_with_raw Sample.ilog2 Sample.x Sample.y "N"
              eq_refl eq_refl eq_refl) as (t & k & Hrun & Hk & Hf & _).
  assert (Ek : k = 3%nat) by (vm_compute in Hk; congruence).
  subst k. exists t. split; [exact Hrun|exact Hf].
Defined.

Lemma gm_turning_point_mean_witness :
  wf Sample.x = true /\ wf Sample.y = true /\
  validate Sample.x Sample.y = Ok tt /\
  exists t a b,
    __init__ Sample.ilog2 Sample.x Sample.y "N" = Ok t /\
    Sequence.forward (gm t) !! 3%nat = Some a /\
    Sequence.reverse (gm t) !! 0%nat = Some b /\
    Sequence.raw (gm t) !! 3%nat = Some (div (add a b) two).
Proof.
  split; [reflexivity|]. split; [reflexivity|]. split; [reflexivity|].
  destruct (gm_turning_point_mean Sample.ilog2 Sample.x Sample.y "N"
              eq_refl eq_refl eq_refl) as (t & k & Hrun & Hk & Hmean).
  assert (Ek : k = 3%nat) by (vm_compute in Hk; congruence).
  subst k.
  destruct Hmean as (a & b & Ha & _ & Hb & _ & Hr); [lia|simpl; lia|].
  exists t, a, b. split; [exact Hrun|]. split; [exact Ha|].
  split; [exact Hb|exact Hr].
Defined.

End LegsAgainstRaw.

(** ** The located values: value, index and tag *)

Module LocatedValues.
Import F64 Np F64Facts NpFacts Transfer TransferFacts MethodFacts.

Lemma foldl_maximum_nan (l : list float) (a : float) :
  is_nan a = true -> foldl maximum a l = a.
Proof.
  intros Ha. induction l as [|v l IH]; [reflexivity|]. simpl.
  unfold maximum at 2. rewrite Ha, orb_true_r. exact IH.
Qed.

Lemma foldl_minimum_nan (l : list float) (a : float) :
  is_nan a = true -> foldl minimum a l = a.
Proof.
  intros Ha. induction l as [|v l IH]; [reflexivity|]. simpl.
  unfold minimum at 2. rewrite Ha, orb_true_r. exact IH.
Qed.

Lemma argmax_scan_value (ip : list float) :
  forall (pre : list float) (mp : float) (max_ind : nat),
    is_nan mp = false -> pre !! max_ind = Some mp ->
    (pre ++ ip) !! argmax_scan mp max_ind (length pre) ip
    = Some (foldl maximum mp ip).
Proof.
  induction ip as [|v ip IH]; intros pre mp max_ind Hm Hmp.
  - simpl. rewrite app_nil_r. exact Hmp.
  - simpl. unfold maximum at 2. rewrite Hm, orb_false_r.
    replace (pre ++ v :: ip) with ((pre ++ [v]) ++ ip)
      by (rewrite <- app_assoc; reflexivity).
    replace (S (length pre)) with (length (pre ++ [v]))
      by (rewrite length_app; simpl; lia).
    destruct (leb v mp) eqn:Hv; simpl.
    + apply IH; [assumption|].
      rewrite lookup_app_l; [assumption|]. eapply lookup_lt_Some; eassumption.
    + destruct (is_nan v) eqn:Hn.
      * rewrite (foldl_maximum_nan ip v Hn).
        rewrite lookup_app_l by (rewrite length_app; simpl; lia).
        rewrite lookup_app_r by lia. rewrite Nat.sub_diag. reflexivity.
      * apply IH; [assumption|].
        rewrite lookup_app_r by lia. rewrite Nat.sub_diag. reflexivity.
Qed.

Lemma argmin_scan_value (ip : list float) :
  forall (pre : list float) (mp : float) (min_ind : nat),
    is_nan mp = false -> pre !! min_ind = Some mp ->
    (pre ++ ip) !! argmin_scan mp min_ind (length pre) ip
    = Some (foldl minimum mp ip).
Proof.
  induction ip as [|v ip IH]; intros pre mp min_ind Hm Hmp.
  - simpl. rewrite app_nil_r. exact Hmp.
  - simpl. unfold minimum at 2. rewrite Hm, orb_false_r.
    replace (pre ++ v :: ip) with ((pre ++ [v]) ++ ip)
      by (rewrite <- app_assoc; reflexivity).
    replace (S (length pre)) with (length (pre ++ [v]))
      by (rewrite length_app; simpl; lia).
    destruct (leb mp v) eqn:Hv; simpl.
    + apply IH; [assumption|].
      rewrite lookup_app_l; [assumption|]. eapply lookup_lt_Some; eassumption.
    + destruct (is_nan v) eqn:Hn.
      * rewrite (foldl_minimum_nan ip v Hn).
        rewrite lookup_app_l by (rewrite length_app; simpl; lia).
        rewrite lookup_app_r by lia. rewrite Nat.sub_diag. reflexivity.
      * apply IH; [assumption|].
        rewrite lookup_app_r by lia. rewrite Nat.sub_diag. reflexivity.
Qed.

(** [a.max()] is the element at [a.argmax()], NaN included; likewise
    [a.min()] and [a.argmin()]. *)
Lemma amax_at_argmax (a : list float) (i : nat) (m : float) :
  argmax a = Ok i -> amax a = Ok m -> a !! i = Some m.
Proof.
  destruct a as [|mp ip]; [discriminate|]. simpl.
  destruct (is_nan mp) eqn:Hm; intros [= <-] [= <-].
  - rewrite (foldl_maximum_nan ip mp Hm). reflexivity.
  - apply (argmax_scan_value ip [mp] mp 0%nat Hm). reflexivity.
Qed.

Lemma amin_at_argmin (a : list float) (i : nat) (m : float) :
  argmin a = Ok i -> amin a = Ok m -> a !! i = Some m.
Proof.
  destruct a as [|mp ip]; [discriminate|]. simpl.
  destruct (is_nan mp) eqn:Hm; intros [= <-] [= <-].
  - rewrite (foldl_minimum_nan ip mp Hm). reflexivity.
  - apply (argmin_scan_value ip [mp] mp 0%nat Hm). reflexivity.
Qed.

(** A value compares equal to itself unless it is NaN. *)
Lemma eqb_refl_or_nan (v : float) : eqb v v = true \/ is_nan v = true.
Proof.
  destruct v as [s|s| |s m e]; [left|left|right|left]; try reflexivity.
  - destruct s; reflexivity.
  - unfold eqb, SFeqb, SFcompare.
    destruct s; rewrite Z.compare_refl, Pos.compare_cont_refl; reflexivity.
Qed.

Local Open Scope string_scope.

Section WithLog.
Variable log10 : float -> float.

(** X8.  The raw value of each located extremum is the sample at the
    very index its location tag is computed from.  [I_max.raw] is
    [|I|[i]] for [i = |I|.argmax()] and [I_min.raw] is [|I|[i]] for
    [i = |I|.argmin()].  [gm_max.raw] compares equal ([==]) to [gm.raw[i]]
    for [i = gm.raw.argmax()], or both are NaN when the transconductance
    holds a NaN; the two may be zeros of opposite sign. *)
Theorem located_value_at_located_index
    (x y : ndarray) (device_type : string) :
  wf x = true -> wf y = true -> validate x y = Ok tt ->
  exists t k i1 i2 i3,
    __init__ log10 x y device_type = Ok t /\
    argmax (data x) = Ok k /\
    argmax (Sequence.raw (gm t)) = Ok i1 /\
    (exists v, Sequence.raw (gm t) !! i1 = Some v /\
       (eqb (Point.raw (gm_max t)) v = true \/
        (is_nan (Point.raw (gm_max t)) = true /\ is_nan v = true))) /\
    Point.where_ (gm_max t) = locate i1 k /\
    argmax (absolute (data y)) = Ok i2 /\
    absolute (data y) !! i2 = Some (Point.raw (I_max t)) /\
    Point.where_ (I_max t) = locate i2 k /\
    argmin (absolute (data y)) = Ok i3 /\
    absolute (data y) !! i3 = Some (Point.raw (I_min t)) /\
    Point.where_ (I_min t) = locate i3 k.
Proof.
  intros Hwx Hwy Hval.
  destruct (init_run log10 x y device_type Hwx Hwy Hval)
    as (t & k & Hrun & Hk & Hmax & HV & HI & Hgm & Hp1 & Hp2 & Hp3 & _).
  apply compute_gm_max_inv in Hp1.
  destruct Hp1 as (i1 & k1 & m1 & ? & ? & Hi1 & Hk1 & Hm1 & _ & _ & E1).
  apply compute_I_max_inv in Hp2.
  destruct Hp2 as (i2 & k2 & m2 & ? & ? & Hi2 & Hk2 & Hm2 & _ & _ & E2).
  apply compute_I_min_inv in Hp3.
  destruct Hp3 as (i3 & k3 & m3 & ? & ? & Hi3 & Hk3 & Hm3 & _ & _ & E3).
  rewrite HV in Hk1, Hk2, Hk3. rewrite HI in Hi2, Hm2, Hi3, Hm3.
  simpl in *.
  assert (k1 = k) by congruence. assert (k2 = k) by congruence.
  assert (k3 = k) by congruence. subst k1 k2 k3.
  exists t, k, i1, i2, i3. rewrite E1, E2, E3. simpl.
  split; [assumption|]. split; [assumption|].
  split; [assumption|]. split.
  { exists m1. split; [now apply amax_at_argmax|].
    destruct (eqb_refl_or_nan m1) as [He|Hn]; [left|right]; auto. }
  split; [reflexivity|].
  split; [assumption|]. split; [now apply amax_at_argmax|].
  split; [reflexivity|].
  split; [assumption|]. split; [now apply amin_at_argmin|].
  reflexivity.
Qed.

End WithLog.

Lemma located_value_at_located_index_witness :
  wf Sample.x = true /\ wf Sample.y = true /\
  validate Sample.x Sample.y = Ok tt /\
  exists t,
    __init__ Sample.ilog2 Sample.x Sample.y "N" = Ok t /\
    absolute (data Sample.y) !! 5%nat = Some (Point.raw (I_max t)) /\
    Point.where_ (I_max t) = locate 5 3.
Proof.
  split; [reflexivity|]. split; [reflexivity|]. split; [reflexivity|].
  destruct (located_value_at_located_index
              Sample.ilog2 Sample.x Sample.y "N" eq_refl eq_refl eq_refl)
    as (t & k & i1 & i2 & i3 & Hrun & Hk & _ & _ & _ & Hi2 & Hv & Hw & _).
  assert (Ek : k = 3%nat) by (vm_compute in Hk; congruence).
  assert (Ei : i2 = 5%nat) by (vm_compute in Hi2; congruence).
  subst k i2. exists t. split; [exact Hrun|]. split; [exact Hv|exact Hw].
Defined.

End LocatedValues.

(** ** Peak and minimum current magnitude across the legs *)

Module CurrentExtrema.
Import F64 Np F64Facts NpFacts Transfer TransferFacts MethodFacts LocatedValues.

Lemma is_argmax_unique (a : list float) (i j : nat) :
  is_argmax a i -> is_argmax a j -> i = j.
Proof.
  intros (mi & Hi & Hlei & Hlti) (mj & Hj & Hlej & Hltj).
  destruct (Nat.lt_trichotomy i j) as [Hlt|[->|Hgt]]; [|reflexivity|].
  - pose proof (Hltj i mi Hlt Hi) as H1. pose proof (Hlei j mj Hj) as H2.
    pose proof (leb_ltb_trans _ _ _ H2 H1) as H3.
    pose proof (ltb_asym _ _ H3). congruence.
  - pose proof (Hlti j mj Hgt Hj) as H1. pose proof (Hlej i mi Hi) as H2.
    pose proof (leb_ltb_trans _ _ _ H2 H1) as H3.
    pose proof (ltb_asym _ _ H3). congruence.
Qed.

Lemma is_argmin_unique (a : list float) (i j : nat) :
  is_argmin a i -> is_argmin a j -> i = j.
Proof.
  intros (mi & Hi & Hlei & Hlti) (mj & Hj & Hlej & Hltj).
  destruct (Nat.lt_trichotomy i j) as [Hlt|[->|Hgt]]; [|reflexivity|].
  - pose proof (Hltj i mi Hlt Hi) as H1. pose proof (Hlei j mj Hj) as H2.
    pose proof (ltb_leb_trans _ _ _ H1 H2) as H3.
    pose proof (ltb_asym _ _ H3). congruence.
  - pose proof (Hlti j mj Hgt Hj) as H1. pose proof (Hlej i mi Hi) as H2.
    pose proof (ltb_leb_trans _ _ _ H1 H2) as H3.
    pose proof (ltb_asym _ _ H3). congruence.
Qed.

Lemma is_argmax_take (a : list float) (i n : nat) :
  is_argmax a i -> (i < n)%nat -> is_argmax (take n a) i.
Proof.
  intros (m & Hm & Hle & Hlt) Hi. exists m. split; [|split].
  - rewrite lookup_take_lt by lia. assumption.
  - intros j v Hj. apply lookup_take_Some in Hj. destruct Hj as [Hj _]. eauto.
  - intros j v Hji Hj. apply lookup_take_Some in Hj. destruct Hj as [Hj _].
    eauto.
Qed.

Lemma is_argmax_drop (a : list float) (i k : nat) :
  is_argmax a i -> (k <= i)%nat -> is_argmax (drop k a) (i - k).
Proof.
  intros (m & Hm & Hle & Hlt) Hk. exists m. split; [|split].
  - rewrite lookup_drop. replace (k + (i - k))%nat with i by lia. assumption.
  - intros j v Hj. rewrite lookup_drop in Hj. eauto.
  - intros j v Hji Hj. rewrite lookup_drop in Hj. apply (Hlt (k + j)%nat); [lia|].
    assumption.
Qed.

Lemma is_argmin_take (a : list float) (i n : nat) :
  is_argmin a i -> (i < n)%nat -> is_argmin (take n a) i.
Proof.
  intros (m & Hm & Hle & Hlt) Hi. exists m. split; [|split].
  - rewrite lookup_take_lt by lia. assumption.
  - intros j v Hj. apply lookup_take_Some in Hj. destruct Hj as [Hj _]. eauto.
  - intros j v Hji Hj. apply lookup_take_Some in Hj. destruct Hj as [Hj _].
    eauto.
Qed.

Lemma is_argmin_drop (a : list float) (i k : nat) :
  is_argmin a i -> (k <= i)%nat -> is_argmin (drop k a) (i - k).
Proof.
  intros (m & Hm & Hle & Hlt) Hk. exists m. split; [|split].
  - rewrite lookup_drop. replace (k + (i - k))%nat with i by lia. assumption.
  - intros j v Hj. rewrite lookup_drop in Hj. eauto.
  - intros j v Hji Hj. rewrite lookup_drop in Hj. apply (Hlt (k + j)%nat); [lia|].
    assumption.
Qed.

Lemma Forall_existsb_is_nan (l : list float) :
  Forall (fun w => is_nan w = false) l -> existsb is_nan l = false.
Proof.
  induction 1 as [|v l Hv _ IH]; [reflexivity|]. simpl. now rewrite Hv, IH.
Qed.

(** Without NaN, [max] is the value at the lowest index of the maximum. *)
Lemma amax_of_is_argmax (b : list float) (j : nat) (v : float) :
  Forall (fun w => is_nan w = false) b ->
  is_argmax b j -> b !! j = Some v -> amax b = Ok v.
Proof.
  intros Hn Hj Hv.
  assert (Hne : b <> []) by (intros ->; discriminate).
  destruct (argmax_spec b Hne (Forall_existsb_is_nan b Hn)) as (k & Hk & Hmax).
  assert (k = j) by (eapply is_argmax_unique; eassumption). subst k.
  destruct (amax_total b) as (m & Hm).
  { destruct b; [congruence|simpl; lia]. }
  pose proof (amax_at_argmax b j m Hk Hm). congruence.
Qed.

Lemma amin_of_is_argmin (b : list float) (j : nat) (v : float) :
  Forall (fun w => is_nan w = false) b ->
  is_argmin b j -> b !! j = Some v -> amin b = Ok v.
Proof.
  intros Hn Hj Hv.
  assert (Hne : b <> []) by (intros ->; discriminate).
  destruct (argmin_spec b Hne (Forall_existsb_is_nan b Hn)) as (k & Hk & Hmin).
  assert (k = j) by (eapply is_argmin_unique; eassumption). subst k.
  destruct (amin_total b) as (m & Hm).
  { destruct b; [congruence|simpl; lia]. }
  pose proof (amin_at_argmin b j m Hk Hm). congruence.
Qed.

Lemma absolute_take (n : nat) (l : list float) :
  absolute (take n l) = take n (absolute l).
Proof. unfold absolute. symmetry. apply firstn_map. Qed.

Lemma absolute_drop (n : nat) (l : list float) :
  absolute (drop n l) = drop n (absolute l).
Proof. unfold absolute. symmetry. apply skipn_map. Qed.

Lemma leb_zero_abs (v : float) :
  is_nan v = false -> leb (S754_zero false) (SFabs v) = true.
Proof. destruct v as [[]|[]| |[] m e]; simpl; try discriminate; reflexivity. Qed.

Local Open Scope string_scope.

Lemma locate_not_reverse (i k : nat) :
  locate i k <> "reverse" -> (i <= k)%nat.
Proof.
  intros Hw. destruct (Nat.le_gt_cases i k) as [Hle|Hgt]; [assumption|].
  exfalso. apply Hw. unfold locate.
  destruct (Nat.ltb_spec i k); [lia|]. destruct (Nat.eqb_spec i k); [lia|].
  reflexivity.
Qed.

Lemma locate_not_forward (i k : nat) :
  locate i k <> "forward" -> (k <= i)%nat.
Proof.
  intros Hw. destruct (Nat.le_gt_cases k i) as [Hle|Hgt]; [assumption|].
  exfalso. apply Hw. unfold locate.
  destruct (Nat.ltb_spec i k); [reflexivity|lia].
Qed.

Section WithLog.
Variable log10 : float -> float.

(** X9.  For peak and minimum |I| the location tag agrees with the
    leg values: unless the tag is "reverse" the forward field equals the
    raw field, and unless the tag is "forward" the reverse field equals
    the raw field; at "turning_point" all three are equal. *)
Theorem current_extrema_tag_agrees_with_legs
    (x y : ndarray) (device_type : string) :
  wf x = true -> wf y = true -> validate x y = Ok tt ->
  exists t,
    __init__ log10 x y device_type = Ok t /\
    (Point.where_ (I_max t) <> "reverse" ->
     Point.forward (I_max t) = Some (Point.raw (I_max t))) /\
    (Point.where_ (I_max t) <> "forward" ->
     Point.reverse (I_max t) = Some (Point.raw (I_max t))) /\
    (Point.where_ (I_min t) <> "reverse" ->
     Point.forward (I_min t) = Some (Point.raw (I_min t))) /\
    (Point.where_ (I_min t) <> "forward" ->
     Point.reverse (I_min t) = Some (Point.raw (I_min t))).
Proof.
  intros Hwx Hwy Hval.
  destruct (init_run log10 x y device_type Hwx Hwy Hval)
    as (t & k & Hrun & Hk & Hmax & HV & HI & _ & _ & Hp2 & Hp3 & _).
  destruct (validate_Ok x y Hwx Hwy Hval)
    as (Hlen & Hpos & _ & _ & _ & Hny & _ & _).
  pose proof (is_argmax_lt _ _ Hmax) as Hkn.
  assert (Hna : Forall (fun w => is_nan w = false) (absolute (data y)))
    by now apply Forall_not_nan_absolute, existsb_is_nan_Forall.
  assert (Hne : absolute (data y) <> []).
  { intros E. apply (f_equal length) in E. rewrite length_absolute in E.
    simpl in E. lia. }
  apply compute_I_max_inv in Hp2.
  destruct Hp2 as (i2 & k2 & m2 & f2 & b2 & Hi2 & Hk2 & Hm2 & Hf2 & Hb2 & E2).
  apply compute_I_min_inv in Hp3.
  destruct Hp3 as (i3 & k3 & m3 & f3 & b3 & Hi3 & Hk3 & Hm3 & Hf3 & Hb3 & E3).
  rewrite HV in Hk2, Hk3. rewrite HI in *. simpl in *.
  assert (k2 = k) by congruence. assert (k3 = k) by congruence. subst k2 k3.
  rewrite absolute_take in Hf2, Hf3. rewrite absolute_drop in Hb2, Hb3.
  destruct (argmax_spec _ Hne (Forall_existsb_is_nan _ Hna))
    as (j2 & Hj2 & Hmax2).
  destruct (argmin_spec _ Hne (Forall_existsb_is_nan _ Hna))
    as (j3 & Hj3 & Hmin3).
  assert (j2 = i2) by congruence. assert (j3 = i3) by congruence.
  subst j2 j3.
  pose proof (amax_at_argmax _ _ _ Hi2 Hm2) as Hv2.
  pose proof (amin_at_argmin _ _ _ Hi3 Hm3) as Hv3.
  exists t. rewrite E2, E3. simpl.
  split; [assumption|]. split; [|split; [|split]].
  - intros Hw. apply locate_not_reverse in Hw. f_equal.
    assert (amax (take (k + 1) (absolute (data y))) = Ok m2); [|congruence].
    apply (amax_of_is_argmax _ i2);
      [now apply Forall_take | apply is_argmax_take; [assumption|lia] |].
    rewrite lookup_take_lt by lia. assumption.
  - intros Hw. apply locate_not_forward in Hw. f_equal.
    assert (amax (drop k (absolute (data y))) = Ok m2); [|congruence].
    apply (amax_of_is_argmax _ (i2 - k));
      [now apply Forall_drop | now apply is_argmax_drop |].
    rewrite lookup_drop. replace (k + (i2 - k))%nat with i2 by lia.
    assumption.
  - intros Hw. apply locate_not_reverse in Hw. f_equal.
    assert (amin (take (k + 1) (absolute (data y))) = Ok m3); [|congruence].
    apply (amin_of_is_argmin _ i3);
      [now apply Forall_take | apply is_argmin_take; [assumption|lia] |].
    rewrite lookup_take_lt by lia. assumption.
  - intros Hw. apply locate_not_forward in Hw. f_equal.
    assert (amin (drop k (absolute (data y))) = Ok m3); [|congruence].
    apply (amin_of_is_argmin _ (i3 - k));
      [now apply Forall_drop | now apply is_argmin_drop |].
    rewrite lookup_drop. replace (k + (i3 - k))%nat with i3 by lia.
    assumption.
Qed.

(** X10.  The six current magnitudes are ordered: the raw minimum is
    not negative and not above either leg's minimum, each leg's minimum is
    not above that leg's maximum, and neither leg's maximum is above the
    raw maximum. *)
Theorem current_extrema_ordered (x y : ndarray) (device_type : string) :
  wf x = true -> wf y = true -> validate x y = Ok tt ->
  exists t fmax bmax fmin bmin,
    __init__ log10 x y device_type = Ok t /\
    Point.forward (I_max t) = Some fmax /\
    Point.reverse (I_max t) = Some bmax /\
    Point.forward (I_min t) = Some fmin /\
    Point.reverse (I_min t) = Some bmin /\
    leb (S754_zero false) (Point.raw (I_min t)) = true /\
    leb (Point.raw (I_min t)) fmin = true /\
    leb (Point.raw (I_min t)) bmin = true /\
    leb fmin fmax = true /\ leb bmin bmax = true /\
    leb fmax (Point.raw (I_max t)) = true /\
    leb bmax (Point.raw (I_max t)) = true.
Proof.
  intros Hwx Hwy Hval.
  destruct (init_run log10 x y device_type Hwx Hwy Hval)
    as (t & k & Hrun & Hk & Hmax & HV & HI & _ & _ & Hp2 & Hp3 & _).
  destruct (validate_Ok x y Hwx Hwy Hval)
    as (Hlen & Hpos & _ & _ & _ & Hny & _ & _).
  assert (Hna : Forall (fun w => is_nan w = false) (absolute (data y)))
    by now apply Forall_not_nan_absolute, existsb_is_nan_Forall.
  apply compute_I_max_inv in Hp2.
  destruct Hp2 as (i2 & k2 & m2 & f2 & b2 & _ & _ & Hm2 & Hf2 & Hb2 & E2).
  apply compute_I_min_inv in Hp3.
  destruct Hp3 as (i3 & k3 & m3 & f3 & b3 & _ & _ & Hm3 & Hf3 & Hb3 & E3).
  rewrite HI in *. simpl in *.
  rewrite absolute_take in Hf2, Hf3. rewrite absolute_drop in Hb2, Hb3.
  apply amax_spec in Hm2, Hf2, Hb2;
    [|now apply Forall_drop|now apply Forall_take|assumption].
  apply amin_spec in Hm3, Hf3, Hb3;
    [|now apply Forall_drop|now apply Forall_take|assumption].
  destruct Hm2 as [_ Hm2], Hm3 as [Hin3 Hm3].
  destruct Hf2 as [Hinf2 Hf2], Hb2 as [Hinb2 Hb2].
  destruct Hf3 as [Hinf3 Hf3], Hb3 as [Hinb3 Hb3].
  exists t, f2, b2, f3, b3. rewrite E2, E3. simpl.
  split; [assumption|]. do 4 (split; [reflexivity|]).
  split.
  { apply list_elem_of_In in Hin3. unfold absolute in Hin3.
    apply in_map_iff in Hin3. destruct Hin3 as (w & <- & Hw).
    apply leb_zero_abs. rewrite Forall_forall in Hna.
    destruct w; simpl; try reflexivity.
    assert (Hin : S754_nan ∈ absolute (data y)).
    { apply list_elem_of_In. unfold absolute. apply in_map_iff.
      exists S754_nan. split; [reflexivity|assumption]. }
    specialize (Hna _ Hin). discriminate. }
  split; [apply Hm3; eapply subseteq_take; eassumption|].
  split; [apply Hm3; eapply subseteq_drop; eassumption|].
  split; [now apply Hf3|]. split; [now apply Hb3|].
  split; [apply Hm2; eapply subseteq_take; eassumption|].
  apply Hm2; eapply subseteq_drop; eassumption.
Qed.

End WithLog.

Lemma current_extrema_tag_agrees_with_legs_witness :
  wf Sample.x = true /\ wf Sample.y = true /\
  validate Sample.x Sample.y = Ok tt /\
  exists t,
    __init__ Sample.ilog2 Sample.x Sample.y "N" = Ok t /\
    Point.where_ (I_max t) = "reverse" /\
    Point.reverse (I_max t) = Some (Point.raw (I_max t)) /\
    Point.where_ (I_min t) = "forward" /\
    Point.forward (I_min t) = Some (Point.raw (I_min t)).
Proof.
  split; [reflexivity|]. split; [reflexivity|]. split; [reflexivity|].
  destruct (current_extrema_tag_agrees_with_legs
              Sample.ilog2 Sample.x Sample.y "N" eq_refl eq_refl eq_refl)
    as (t & Hrun & _ & Hmax & Hmin & _).
  assert (Hw : Point.where_ (I_max t) = "reverse"
               /\ Point.where_ (I_min t) = "forward").
  { vm_compute in Hrun. injection Hrun as <-. split; reflexivity. }
  destruct Hw as [Hw1 Hw2].
  exists t. split; [exact Hrun|]. split; [exact Hw1|].
  split; [apply Hmax; rewrite Hw1; discriminate|].
  split; [exact Hw2|]. apply Hmin. rewrite Hw2. discriminate.
Defined.

Lemma current_extrema_ordered_witness :
  wf Sample.x = true /\ wf Sample.y = true /\
  validate Sample.x Sample.y = Ok tt /\
  exists t fmax,
    __init__ Sample.ilog2 Sample.x Sample.y "N" = Ok t /\
    Point.forward (I_max t) = Some fmax /\
    leb fmax (Point.raw (I_max t)) = true.
Proof.
  split; [reflexivity|]. split; [reflexivity|]. split; [reflexivity|].
  destruct (current_extrema_ordered
              Sample.ilog2 Sample.x Sample.y "N" eq_refl eq_refl eq_refl)
    as (t & fmax & bmax & fmin & bmin & Hrun & Hf & _ & _ & _ & _ & _ & _
        & _ & _ & Hle & _).
  exists t, fmax. split; [exact Hrun|]. split; [exact Hf|exact Hle].
Defined.

End CurrentExtrema.

(** ** The device type, one-directional sweeps, and the errors of
    construction *)

Module Construction.
Import F64 Np F64Facts NpFacts Transfer TransferFacts MethodFacts.
Local Open Scope string_scope.

Lemma upper_ascii_N (c : ascii) :
  upper_ascii c = "N"%char <-> c = "N"%char \/ c = "n"%char.
Proof.
  destruct c as [[] [] [] [] [] [] [] []]; vm_compute;
    (split; intros Hc;
     first [ discriminate Hc
           | destruct Hc as [Hc|Hc]; discriminate Hc
           | left; reflexivity
           | right; reflexivity
           | reflexivity ]).
Qed.

Lemma upper_N (s : string) : upper s = "N" <-> s = "N" \/ s = "n".
Proof.
  destruct s as [|c [|c' s]]; simpl.
  - split; [discriminate|intros [H|H]; discriminate].
  - split.
    + intros [= Hc]. apply upper_ascii_N in Hc.
      destruct Hc as [->| ->]; [left|right]; reflexivity.
    + intros [[= ->]|[= ->]]; reflexivity.
  - split; [discriminate|intros [H|H]; discriminate].
Qed.

Lemma validate_Raise_condition (x y : ndarray) (e : exn) :
  validate x y = Raise e -> exists c, condition_of e = Some c.
Proof.
  unfold validate.
  repeat match goal with
  | |- context [if ?b then _ else _] => destruct b
  end; intros [= <-]; eexists; reflexivity.
Qed.

Section WithLog.
Variable log10 : float -> float.

(** X11.  Only the device types "N" and "n" select the maximum log-slope;
    every other string, whatever it is, is accepted and gives exactly the
    result of "P". *)
Theorem device_type_N_or_else_P (x y : ndarray) (device_type : string) :
  ((device_type = "N" \/ device_type = "n") ->
   __init__ log10 x y device_type = __init__ log10 x y "N") /\
  (device_type <> "N" -> device_type <> "n" ->
   __init__ log10 x y device_type = __init__ log10 x y "P").
Proof.
  split.
  - intros Hd. apply upper_N in Hd.
    unfold __init__, _compute_Von, select. rewrite Hd. reflexivity.
  - intros H1 H2.
    assert (Hd : String.eqb (upper device_type) "N" = false).
    { apply String.eqb_neq. intros Hu. apply upper_N in Hu. tauto. }
    unfold __init__, _compute_Von, select. rewrite Hd. reflexivity.
Qed.

(** X12.  A sweep whose maximum gate voltage is its last sample has a
    one-sample reverse leg: the forward leg is the whole sweep with the
    same transconductance, the reverse transconductance is the single
    zero of the fill, its maximum is that zero, and the reverse Von is the
    turning voltage.  A sweep whose maximum is its first sample has the
    mirror image, a one-sample forward leg. *)
Theorem one_directional_sweep (x y : ndarray) (device_type : string) :
  wf x = true -> wf y = true -> validate x y = Ok tt ->
  exists t k,
    __init__ log10 x y device_type = Ok t /\
    argmax (data x) = Ok k /\
    ((k + 1)%nat = length (data x) ->
     Sequence.forward (Vg t) = data x /\
     Sequence.forward (I t) = data y /\
     Sequence.forward (gm t) = Sequence.raw (gm t) /\
     Sequence.reverse (gm t) = [S754_zero false] /\
     Point.reverse (gm_max t) = Some (S754_zero false) /\
     Point.reverse (Von t) = data x !! k) /\
    (k = 0%nat ->
     Sequence.reverse (Vg t) = data x /\
     Sequence.reverse (I t) = data y /\
     Sequence.reverse (gm t) = Sequence.raw (gm t) /\
     Sequence.forward (gm t) = [S754_zero false] /\
     Point.forward (gm_max t) = Some (S754_zero false) /\
     Point.forward (Von t) = data x !! 0%nat).
Proof.
  intros Hwx Hwy Hval.
  destruct (init_run log10 x y device_type Hwx Hwy Hval)
    as (t & k & Hrun & Hk & Hmax & HV & HI & Hgm & Hp1 & _ & _ & Hp4).
  destruct (validate_Ok x y Hwx Hwy Hval) as (Hlen & Hpos & _).
  pose proof (is_argmax_lt _ _ Hmax) as Hkn.
  apply compute_gm_inv in Hgm. destruct Hgm as (Hr & Hf & Hb).
  apply compute_gm_max_inv in Hp1.
  destruct Hp1 as (? & ? & ? & mf & mb & _ & _ & _ & Hmf & Hmb & E1).
  apply compute_Von_inv in Hp4;
    [|rewrite HV; simpl; rewrite length_take; lia
     |rewrite HV; simpl; rewrite length_drop; lia].
  destruct Hp4 as (? & ? & ? & ? & jf & wf' & ? & jb & wb & ?
                   & _ & _ & _ & _ & _ & Hwf & _ & _ & Hwb & _ & E4).
  rewrite HV, HI in *. simpl in *.
  exists t, k. split; [assumption|]. split; [assumption|].
  rewrite E1, E4, HV, HI. simpl. split.
  - intros Hlast.
    assert (Etx : take (k + 1) (data x) = data x) by (apply take_ge; lia).
    assert (Ety : take (k + 1) (data y) = data y) by (apply take_ge; lia).
    rewrite Etx, Ety in *.
    assert (Hgb : Sequence.reverse (gm t) = [S754_zero false]).
    { rewrite safe_diff_short in Hb by (rewrite length_drop; lia).
      rewrite length_drop in Hb.
      replace (length (data y) - k)%nat with 1%nat in Hb by lia.
      injection Hb as <-. reflexivity. }
    split; [reflexivity|]. split; [reflexivity|].
    split; [congruence|]. split; [assumption|]. split.
    + rewrite Hgb in Hmb. unfold amax in Hmb. simpl in Hmb.
      injection Hmb as <-. reflexivity.
    + pose proof (lookup_lt_Some _ _ _ Hwb) as Hjb.
      rewrite length_drop in Hjb.
      rewrite lookup_drop in Hwb.
      replace (k + jb)%nat with k in Hwb by lia. congruence.
  - intros ->. rewrite !drop_0 in *.
    assert (Hgf : Sequence.forward (gm t) = [S754_zero false]).
    { assert (Hl1 : length (take (0 + 1) (data y)) = 1%nat)
        by (rewrite length_take; lia).
      rewrite safe_diff_short in Hf by lia. rewrite Hl1 in Hf.
      injection Hf as <-. reflexivity. }
    split; [reflexivity|]. split; [reflexivity|].
    split; [congruence|]. split; [assumption|]. split.
    + rewrite Hgf in Hmf. unfold amax in Hmf. simpl in Hmf.
      injection Hmf as <-. reflexivity.
    + apply lookup_take_Some in Hwf. destruct Hwf as [Hwf Hjf].
      replace jf with 0%nat in Hwf by lia. congruence.
Qed.

(** X13.  For a [device_type] that is a string ([str]) and well-formed
    arrays, construction fails exactly when validation fails and with the
    same error: [__init__] raises nothing but one of the five validation
    errors, never an IndexError and never the error of a reduction over an
    empty array.  (A [device_type] of another type is outside this
    statement: [device_type.upper()] then fails after validation.) *)
Theorem init_raises_only_validation_errors
    (x y : ndarray) (device_type : string) (e : exn) :
  wf x = true -> wf y = true ->
  (__init__ log10 x y device_type = Raise e <-> validate x y = Raise e) /\
  (__init__ log10 x y device_type = Raise e ->
   exists c, condition_of e = Some c).
Proof.
  intros Hwx Hwy.
  assert (Hiff : __init__ log10 x y device_type = Raise e
                 <-> validate x y = Raise e).
  { destruct (validate x y) as [[]|e'] eqn:Hv.
    - destruct (init_run log10 x y device_type Hwx Hwy Hv) as (t & k & Hrun & _).
      rewrite Hrun. split; discriminate.
    - unfold __init__. rewrite Hv. simpl.
      split; intros [= ->]; reflexivity. }
  split; [exact Hiff|].
  intros Hrun. apply Hiff in Hrun.
  eapply validate_Raise_condition; eassumption.
Qed.

End WithLog.

Lemma one_directional_sweep_witness :
  let x := array1 (map of_Z [0; 1; 2]%Z) in
  let y := array1 (map of_Z [5; 6; 9]%Z) in
  wf x = true /\ wf y = true /\ validate x y = Ok tt /\
  exists t,
    __init__ Sample.ilog2 x y "N" = Ok t /\
    Sequence.forward (gm t) = Sequence.raw (gm t) /\
    Sequence.reverse (gm t) = [S754_zero false] /\
    Point.reverse (gm_max t) = Some (S754_zero false) /\
    Point.reverse (Von t) = Some (of_Z 2).
Proof.
  cbv zeta.
  split; [reflexivity|]. split; [reflexivity|]. split; [reflexivity|].
  destruct (one_directional_sweep Sample.ilog2
              (array1 (map of_Z [0; 1; 2]%Z)) (array1 (map of_Z [5; 6; 9]%Z))
              "N" eq_refl eq_refl eq_refl) as (t & k & Hrun & Hk & Hlast & _).
  assert (Ek : k = 2%nat) by (vm_compute in Hk; congruence).
  subst k. destruct Hlast as (_ & _ & Hf & Hb & Hm & Hv); [reflexivity|].
  exists t. split; [exact Hrun|]. split; [exact Hf|]. split; [exact Hb|].
  split; [exact Hm|exact Hv].
Defined.

Lemma init_raises_only_validation_errors_witness :
  let x := array1 [of_Z 1; of_Z 2] in
  let y := array1 [of_Z 1; S754_infinity true] in
  let e := ValueError "x and y must not contain infinite values." in
  wf x = true /\ wf y = true /\
  __init__ Sample.ilog2 x y "P" = Raise e /\
  validate x y = Raise e /\
  condition_of e = Some InfiniteValueError.
Proof.
  cbv zeta.
  split; [reflexivity|]. split; [reflexivity|].
  destruct (init_raises_only_validation_errors Sample.ilog2
              (array1 [of_Z 1; of_Z 2]) (array1 [of_Z 1; S754_infinity true])
              "P" (ValueError "x and y must not contain infinite values.")
              eq_refl eq_refl) as (Hiff & _).
  assert (Hv : validate (array1 [of_Z 1; of_Z 2])
                 (array1 [of_Z 1; S754_infinity true])
               = Raise (ValueError "x and y must not contain infinite values."))
    by reflexivity.
  split; [apply Hiff; exact Hv|]. split; [exact Hv|reflexivity].
Defined.

End Construction.

(** ** NaN in the transconductance *)

Module NaNPropagation.
Import F64 Np F64Facts NpFacts Transfer TransferFacts MethodFacts.

Lemma leb_nan_l (a : float) : leb S754_nan a = false.
Proof. reflexivity. Qed.

Lemma foldl_maximum_has_nan (l : list float) :
  forall a, is_nan a = true \/ existsb is_nan l = true ->
    is_nan (foldl maximum a l) = true.
Proof.
  induction l as [|v l IH]; intros a Hn; simpl in *.
  - destruct Hn as [Hn|Hn]; [assumption|discriminate].
  - apply IH. unfold maximum.
    destruct (is_nan a) eqn:Ha.
    + rewrite orb_true_r. left. assumption.
    + rewrite orb_false_r. destruct Hn as [Hn|Hn]; [discriminate|].
      destruct (is_nan v) eqn:Hv; simpl in Hn.
      * destruct v; try discriminate. rewrite leb_nan_l. left. reflexivity.
      * right. assumption.
Qed.

Lemma amax_has_nan (a : list float) (m : float) :
  existsb is_nan a = true -> amax a = Ok m -> is_nan m = true.
Proof.
  destruct a as [|v l]; [discriminate|]. simpl. intros Hn [= <-].
  apply foldl_maximum_has_nan.
  destruct (is_nan v); [left; reflexivity|right; exact Hn].
Qed.

Section WithLog.
Variable log10 : float -> float.

(** X14.  Validation does not keep NaN out of the results: whenever the
    raw transconductance holds a NaN (finite currents whose differences
    overflow with opposite signs produce one), the peak transconductance
    [gm_max.raw] is NaN. *)
Theorem gm_max_nan_when_gm_has_nan (x y : ndarray) (device_type : string) :
  wf x = true -> wf y = true -> validate x y = Ok tt ->
  exists t,
    __init__ log10 x y device_type = Ok t /\
    (existsb is_nan (Sequence.raw (gm t)) = true ->
     is_nan (Point.raw (gm_max t)) = true).
Proof.
  intros Hwx Hwy Hval.
  destruct (init_run log10 x y device_type Hwx Hwy Hval)
    as (t & k & Hrun & _ & _ & _ & _ & _ & Hp1 & _).
  apply compute_gm_max_inv in Hp1.
  destruct Hp1 as (? & ? & m & ? & ? & _ & _ & Hm & _ & _ & E1).
  exists t. split; [assumption|]. intros Hn. rewrite E1. simpl.
  eapply amax_has_nan; eassumption.
Qed.

End WithLog.

Lemma gm_max_nan_when_gm_has_nan_witness :
  let big := of_Z (10 ^ 308) in
  let x := array1 (map of_Z [0; 1; 2]%Z) in
  let y := array1 [big; SFopp big; big] in
  forallb valid (data y) = true /\
  wf x = true /\ wf y = true /\ validate x y = Ok tt /\
  exists t,
    __init__ Sample.ilog2 x y "N" = Ok t /\
    existsb is_nan (Sequence.raw (gm t)) = true /\
    is_nan (Point.raw (gm_max t)) = true.
Proof.
  cbv zeta. split; [vm_compute; reflexivity|].
  split; [reflexivity|]. split; [reflexivity|].
  split; [vm_compute; reflexivity|].
  destruct (gm_max_nan_when_gm_has_nan Sample.ilog2
              (array1 (map of_Z [0; 1; 2]%Z))
              (array1 [of_Z (10 ^ 308); SFopp (of_Z (10 ^ 308));
                       of_Z (10 ^ 308)]) "N" eq_refl eq_refl)
    as (t & Hrun & Hnan); [vm_compute; reflexivity|].
  assert (Hg : existsb is_nan (Sequence.raw (gm t)) = true).
  { vm_compute in Hrun. injection Hrun as <-. reflexivity. }
  exists t. split; [exact Hrun|]. split; [exact Hg|exact (Hnan Hg)].
Defined.

End NaNPropagation.
